(** * The crawl-and-extract engine of the universal quote parser

    A shallow embedding of [D_Z/main_d_z.py]: the selector registry, the
    record extractor, content validation, hash-based deduplication, the
    retry wrapper and the pagination walker, followed by the properties
    that the design document states about them. *)

From Stdlib Require Import NArith ZArith Ascii String List Lia Bool.
From stdpp Require Import base decidable countable list gmap.

Local Open Scope N_scope.

(** ** Python strings

    A Python [str] is a sequence of Unicode code points; [len] counts code
    points.  String literals of the source that are pure ASCII are written
    with [lit]. *)

Abbreviation char := N (only parsing).
Abbreviation str := (list N) (only parsing).

Fixpoint lit (s : string) : str :=
  match s with
  | EmptyString => []
  | String a s' => N_of_ascii a :: lit s'
  end.
Arguments lit : simpl never.

(** Truthiness of a [str]: the empty string is falsy. *)
Definition truthy (s : str) : bool :=
  match s with [] => false | _ :: _ => true end.

Definition str_eqb (a b : str) : bool := bool_decide (a = b).

(** [needle in haystack] for strings: some suffix of the haystack starts
    with the needle. *)
Fixpoint startswith (s p : str) : bool :=
  match p, s with
  | [], _ => true
  | _ :: _, [] => false
  | c :: p', d :: s' => (c =? d) && startswith s' p'
  end.

Fixpoint str_in (needle haystack : str) : bool :=
  startswith haystack needle ||
  match haystack with
  | [] => false
  | _ :: h' => str_in needle h'
  end.

(** ** The character database

    [str.strip], [str.isdigit], [str.lower], [str.upper] and the regular
    expression classes [\w] and [\s] are driven by the Unicode character
    database of the interpreter.  The engine is parametric in it. *)

Class Unicode := {
  isspace : char -> bool;      (* str.isspace on one character; also \s *)
  isdigit_ch : char -> bool;   (* str.isdigit on one character *)
  isalnum : char -> bool;      (* str.isalnum on one character *)
  lower : str -> str;          (* str.lower *)
  upper : str -> str           (* str.upper *)
}.

Section StringOps.
Context `{Unicode}.

Fixpoint lstrip (s : str) : str :=
  match s with
  | [] => []
  | c :: s' => if isspace c then lstrip s' else s
  end.

Definition rstrip (s : str) : str := rev (lstrip (rev s)).

(** [s.strip()] *)
Definition strip (s : str) : str := rstrip (lstrip s).

(** [s.isdigit()]: at least one character, and all of them digits. *)
Definition isdigit (s : str) : bool := truthy s && forallb isdigit_ch s.

(** [\w]: alphanumeric or underscore. *)
Definition is_word (c : char) : bool := isalnum c || (c =? 95).

(** [len(re.findall(r'[^\w\s]', s))] *)
Definition special_chars (s : str) : nat :=
  length (List.filter (fun c => negb (is_word c) && negb (isspace c)) s).
End StringOps.

(** *** The Basic Latin and Latin-1 Supplement blocks

    The concrete database for code points below 256, as CPython has it.
    Case mapping leaves the block in three places: [upper] of U+00B5 is
    U+039C, [upper] of U+00FF is U+0178 and [upper] of U+00DF is the two
    letters "SS".  Code points outside the table are left unclassified
    and unchanged; statements that use this instance are restricted to
    strings of the block. *)

Definition latin1_isspace (c : char) : bool :=
  ((9 <=? c) && (c <=? 13)) || ((28 <=? c) && (c <=? 32)) || (c =? 133) || (c =? 160).

Definition latin1_isdigit (c : char) : bool :=
  ((48 <=? c) && (c <=? 57)) || (c =? 178) || (c =? 179) || (c =? 185).

Definition latin1_isalpha (c : char) : bool :=
  ((65 <=? c) && (c <=? 90)) || ((97 <=? c) && (c <=? 122)) ||
  (c =? 170) || (c =? 181) || (c =? 186) ||
  ((192 <=? c) && (c <=? 255) && negb (c =? 215) && negb (c =? 247)).

Definition latin1_isalnum (c : char) : bool :=
  latin1_isalpha c || latin1_isdigit c || ((188 <=? c) && (c <=? 190)).

Definition latin1_lower_ch (c : char) : str :=
  if (65 <=? c) && (c <=? 90) then [c + 32]
  else if (192 <=? c) && (c <=? 222) && negb (c =? 215) then [c + 32]
  else if c =? 376 then [255]
  else if c =? 924 then [956]
  else [c].

Definition latin1_upper_ch (c : char) : str :=
  if (97 <=? c) && (c <=? 122) then [c - 32]
  else if c =? 181 then [924]
  else if c =? 223 then [83; 83]
  else if (224 <=? c) && (c <=? 254) && negb (c =? 247) then [c - 32]
  else if c =? 255 then [376]
  else if c =? 956 then [924]
  else [c].

#[export] Instance latin1 : Unicode := {|
  isspace := latin1_isspace;
  isdigit_ch := latin1_isdigit;
  isalnum := latin1_isalnum;
  lower := flat_map latin1_lower_ch;
  upper := flat_map latin1_upper_ch
|}.

(** ** UTF-8 and MD5

    [content.encode('utf-8')] followed by [hashlib.md5(...).hexdigest()].
    The text of a parsed page holds Unicode scalar values only (no lone
    surrogates), for which the encoding is total. *)

Abbreviation byte := N (only parsing).

Definition utf8_char (c : char) : list byte :=
  if c <? 128 then [c]
  else if c <? 2048 then
    [N.lor 192 (N.shiftr c 6); N.lor 128 (N.land c 63)]
  else if c <? 65536 then
    [N.lor 224 (N.shiftr c 12); N.lor 128 (N.land (N.shiftr c 6) 63);
     N.lor 128 (N.land c 63)]
  else
    [N.lor 240 (N.shiftr c 18); N.lor 128 (N.land (N.shiftr c 12) 63);
     N.lor 128 (N.land (N.shiftr c 6) 63); N.lor 128 (N.land c 63)].

Definition utf8 (s : str) : list byte := flat_map utf8_char s.

Module MD5.

Definition w32 (x : N) : N := x mod 4294967296.

Definition not32 (x : N) : N := N.lxor x 4294967295.

Definition rotl32 (x c : N) : N :=
  w32 (N.lor (N.shiftl x c) (N.shiftr x (32 - c))).

Definition K : list N :=
  [0xd76aa478; 0xe8c7b756; 0x242070db; 0xc1bdceee; 0xf57c0faf; 0x4787c62a;
   0xa8304613; 0xfd469501; 0x698098d8; 0x8b44f7af; 0xffff5bb1; 0x895cd7be;
   0x6b901122; 0xfd987193; 0xa679438e; 0x49b40821; 0xf61e2562; 0xc040b340;
   0x265e5a51; 0xe9b6c7aa; 0xd62f105d; 0x02441453; 0xd8a1e681; 0xe7d3fbc8;
   0x21e1cde6; 0xc33707d6; 0xf4d50d87; 0x455a14ed; 0xa9e3e905; 0xfcefa3f8;
   0x676f02d9; 0x8d2a4c8a; 0xfffa3942; 0x8771f681; 0x6d9d6122; 0xfde5380c;
   0xa4beea44; 0x4bdecfa9; 0xf6bb4b60; 0xbebfbc70; 0x289b7ec6; 0xeaa127fa;
   0xd4ef3085; 0x04881d05; 0xd9d4d039; 0xe6db99e5; 0x1fa27cf8; 0xc4ac5665;
   0xf4292244; 0x432aff97; 0xab9423a7; 0xfc93a039; 0x655b59c3; 0x8f0ccc92;
   0xffeff47d; 0x85845dd1; 0x6fa87e4f; 0xfe2ce6e0; 0xa3014314; 0x4e0811a1;
   0xf7537e82; 0xbd3af235; 0x2ad7d2bb; 0xeb86d391].

Definition shifts : list N :=
  [7; 12; 17; 22; 7; 12; 17; 22; 7; 12; 17; 22; 7; 12; 17; 22;
   5; 9; 14; 20; 5; 9; 14; 20; 5; 9; 14; 20; 5; 9; 14; 20;
   4; 11; 16; 23; 4; 11; 16; 23; 4; 11; 16; 23; 4; 11; 16; 23;
   6; 10; 15; 21; 6; 10; 15; 21; 6; 10; 15; 21; 6; 10; 15; 21].

Record regs := Regs { rA : N; rB : N; rC : N; rD : N }.

Definition init : regs :=
  Regs 0x67452301 0xefcdab89 0x98badcfe 0x10325476.

(** One of the 64 operations on a block [M] of sixteen words. *)
Definition round (M : list N) (r : regs) (i : N) : regs :=
  let '(Regs a b c d) := r in
  let '(f, g) :=
    if i <? 16 then (N.lor (N.land b c) (N.land (not32 b) d), i)
    else if i <? 32 then
      (N.lor (N.land d b) (N.land (not32 d) c), (5 * i + 1) mod 16)
    else if i <? 48 then (N.lxor b (N.lxor c d), (3 * i + 5) mod 16)
    else (N.lxor c (N.lor b (not32 d)), (7 * i) mod 16) in
  let f' := w32 (f + a + nth (N.to_nat i) K 0 + nth (N.to_nat g) M 0) in
  Regs d (w32 (b + rotl32 f' (nth (N.to_nat i) shifts 0))) b c.

Definition le32 (bs : list byte) : N :=
  fold_right (fun b acc => b + 256 * acc) 0 bs.

Fixpoint words (n : nat) (bs : list byte) : list N :=
  match n with
  | O => []
  | S n' => le32 (firstn 4 bs) :: words n' (skipn 4 bs)
  end.

Definition block (r : regs) (bs : list byte) : regs :=
  let r' := fold_left (round (words 16 bs)) (map N.of_nat (seq 0 64)) r in
  Regs (w32 (rA r + rA r')) (w32 (rB r + rB r'))
       (w32 (rC r + rC r')) (w32 (rD r + rD r')).

Fixpoint blocks (n : nat) (r : regs) (bs : list byte) : regs :=
  match n with
  | O => r
  | S n' => blocks n' (block r (firstn 64 bs)) (skipn 64 bs)
  end.

Fixpoint le_bytes (n : nat) (x : N) : list byte :=
  match n with
  | O => []
  | S n' => x mod 256 :: le_bytes n' (x / 256)
  end.

Definition pad (msg : list byte) : list byte :=
  let len := N.of_nat (length msg) in
  msg ++ [128] ++ repeat 0 (N.to_nat ((119 - len mod 64) mod 64))
      ++ le_bytes 8 ((8 * len) mod 18446744073709551616).

Definition digest (msg : list byte) : list byte :=
  let p := pad msg in
  let r := blocks (Nat.div (length p) 64) init p in
  le_bytes 4 (rA r) ++ le_bytes 4 (rB r) ++ le_bytes 4 (rC r) ++ le_bytes 4 (rD r).

Definition hex_digit (x : N) : char := if x <? 10 then 48 + x else 87 + x.

Definition hex (bs : list byte) : str :=
  flat_map (fun b => [hex_digit (b / 16); hex_digit (b mod 16)]) bs.

(** [hashlib.md5(msg).hexdigest()] *)
Definition hexdigest (msg : list byte) : str := hex (digest msg).

End MD5.

(** ** Binary64 arithmetic of the symbol-ratio test

    [len(quote_text) * 0.3] is a double-precision product.  The double
    nearest to 0.3 is [5404319552844595 / 2^54]; the exact product is
    rounded to 53 significant bits, ties to even.  [mul_03 n] is that
    rounded product scaled by [2^54], for lengths below [2^53] (which
    convert to a double exactly). *)

Definition mul_03 (n : Z) : Z :=
  let X := (n * 5404319552844595)%Z in
  if (X <? 2 ^ 53)%Z then X
  else
    let sh := (Z.log2 X - 52)%Z in
    let q := (X / 2 ^ sh)%Z in
    let r := (X mod 2 ^ sh)%Z in
    let half := (2 ^ (sh - 1))%Z in
    let q' := if (half <? r)%Z || ((r =? half)%Z && Z.odd q)
              then (q + 1)%Z else q in
    (q' * 2 ^ sh)%Z.

(** [special > length * 0.3], an exact comparison of an int with a double. *)
Definition exceeds_03 (special length : nat) : bool :=
  (mul_03 (Z.of_nat length) <? Z.of_nat special * 2 ^ 54)%Z.

(** ** Configuration *)

Record config := {
  request_timeout : Z;
  max_retries : Z;
  retry_delay : Z;
  user_agent : str;
  respect_robots : bool;
  min_quote_length : Z;
  max_quote_length : Z;
  default_delay : Z
}.

Definition DEFAULT_CONFIG : config := {|
  request_timeout := 15;
  max_retries := 3;
  retry_delay := 2;
  user_agent := lit "UniversalQuoteParser/2.0 (+https://github.com/quote-parser)";
  respect_robots := true;
  min_quote_length := 10;
  max_quote_length := 1000;
  default_delay := 1
|}.

(** ** Selector sets and the site registry

    A selector entry is either one selector string (the registered
    profile) or a list of candidates (the universal fallback). *)

Inductive selector :=
| One (s : str)
| Many (l : list str).

Module Sel.
Record t := {
  quotes : selector;
  text : selector;
  author : selector;
  tags : selector;
  next_page : selector
}.
End Sel.

Record site := {
  name : str;
  base_url : str;
  selectors : Sel.t
}.

Definition toscrape : site := {|
  name := lit "Quotes to Scrape";
  base_url := lit "http://quotes.toscrape.com";
  selectors := {|
    Sel.quotes := One (lit "div.quote");
    Sel.text := One (lit "span.text");
    Sel.author := One (lit "small.author");
    Sel.tags := One (lit "a.tag");
    Sel.next_page := One (lit "li.next a") |}
|}.

Definition SUPPORTED_SITES : list (str * site) := [ (lit "toscrape", toscrape) ].

Definition universal_selectors : Sel.t := {|
  Sel.quotes := Many [lit ".quote"; lit "[class*='quote']"; lit "blockquote"];
  Sel.text := Many [lit ".text"; lit ".quote-text"; lit "span"; lit "p"];
  Sel.author := Many [lit ".author"; lit ".quote-author"; lit "cite"; lit "small"];
  Sel.tags := Many [lit ".tag"; lit ".tags"; lit ".keywords"];
  Sel.next_page := Many [lit ".next"; lit "[rel='next']"; lit ".pagination-next"]
|}.

(** [detect_site_type]: the first registered site whose base URL occurs in
    [url] ([site_config['base_url'] in url]), else the universal set. *)
Fixpoint detect_in (sites : list (str * site)) (url : str) : Sel.t :=
  match sites with
  | [] => universal_selectors
  | (_, site_config) :: rest =>
      if str_in (base_url site_config) url then selectors site_config
      else detect_in rest url
  end.

Definition detect_site_type (url : str) : Sel.t := detect_in SUPPORTED_SITES url.

(** [_ensure_list] *)
Definition _ensure_list (sel : selector) : list str :=
  match sel with
  | Many l => l
  | One s => if truthy s then [s] else []
  end.

(** ** Quote records *)

Module Quote.
Record t := {
  quote : str;
  author : str;
  tags : list str;
  tags_count : nat;
  timestamp : str
}.
End Quote.

(** ** The parsed document

    What the extractor uses of BeautifulSoup: parsing, [select] with a CSS
    selector (matches in document order), the text nodes below an element
    and attribute lookup.  The selectors of the registry and of the
    universal set are well-formed, so [select] returns a list and the
    [except] clause around one container of [parse_quotes] is never
    entered; an element is truthy whatever its contents. *)

Class Html := {
  node : Type;
  BeautifulSoup : str -> node;
  select : node -> str -> list node;
  strings : node -> list str;
  get : node -> str -> option str
}.

(** ** Exceptions *)

Inductive exception :=
| Timeout
| HTTPError (status_code : N)
| RequestException
| TypeError.

(** ** Parser state

    The attributes of [UniversalQuoteParser] that the engine mutates,
    together with the trace of what the process did to its environment:
    the URLs of the HTTP requests issued, the [fetch_page] calls of the
    walker, the [time.sleep] durations and the number of clock readings. *)

Record state := {
  visited_urls : gset str;
  all_quotes : list Quote.t;
  quote_hashes : gset str;
  start_time : option str;
  total_pages : nat;
  total_quotes : nat;
  failed_requests : nat;
  requests : list str;
  fetches : list str;
  sleeps : list Z;
  ticks : nat
}.

Definition fresh : state := {|
  visited_urls := ∅; all_quotes := []; quote_hashes := ∅;
  start_time := None; total_pages := 0; total_quotes := 0;
  failed_requests := 0;
  requests := []; fetches := []; sleeps := []; ticks := 0
|}.

Definition add_visited (u : str) (st : state) : state := {|
  visited_urls := {[u]} ∪ visited_urls st;
  all_quotes := all_quotes st; quote_hashes := quote_hashes st;
  start_time := start_time st; total_pages := total_pages st;
  total_quotes := total_quotes st; failed_requests := failed_requests st;
  requests := requests st; fetches := fetches st; sleeps := sleeps st;
  ticks := ticks st
|}.

Definition add_hash (h : str) (st : state) : state := {|
  visited_urls := visited_urls st;
  all_quotes := all_quotes st; quote_hashes := {[h]} ∪ quote_hashes st;
  start_time := start_time st; total_pages := total_pages st;
  total_quotes := total_quotes st; failed_requests := failed_requests st;
  requests := requests st; fetches := fetches st; sleeps := sleeps st;
  ticks := ticks st
|}.

(** [all_quotes.extend(quotes)], [total_quotes += len(quotes)] and
    [total_pages += 1]. *)
Definition record_page (quotes : list Quote.t) (st : state) : state := {|
  visited_urls := visited_urls st;
  all_quotes := all_quotes st ++ quotes; quote_hashes := quote_hashes st;
  start_time := start_time st; total_pages := total_pages st + 1;
  total_quotes := total_quotes st + length quotes;
  failed_requests := failed_requests st;
  requests := requests st; fetches := fetches st; sleeps := sleeps st;
  ticks := ticks st
|}.

Definition count_failure (st : state) : state := {|
  visited_urls := visited_urls st;
  all_quotes := all_quotes st; quote_hashes := quote_hashes st;
  start_time := start_time st; total_pages := total_pages st;
  total_quotes := total_quotes st; failed_requests := failed_requests st + 1;
  requests := requests st; fetches := fetches st; sleeps := sleeps st;
  ticks := ticks st
|}.

Definition log_request (u : str) (st : state) : state := {|
  visited_urls := visited_urls st;
  all_quotes := all_quotes st; quote_hashes := quote_hashes st;
  start_time := start_time st; total_pages := total_pages st;
  total_quotes := total_quotes st; failed_requests := failed_requests st;
  requests := requests st ++ [u]; fetches := fetches st; sleeps := sleeps st;
  ticks := ticks st
|}.

Definition log_fetch (u : str) (st : state) : state := {|
  visited_urls := visited_urls st;
  all_quotes := all_quotes st; quote_hashes := quote_hashes st;
  start_time := start_time st; total_pages := total_pages st;
  total_quotes := total_quotes st; failed_requests := failed_requests st;
  requests := requests st; fetches := fetches st ++ [u]; sleeps := sleeps st;
  ticks := ticks st
|}.

(** [time.sleep(d)] *)
Definition sleep (d : Z) (st : state) : state := {|
  visited_urls := visited_urls st;
  all_quotes := all_quotes st; quote_hashes := quote_hashes st;
  start_time := start_time st; total_pages := total_pages st;
  total_quotes := total_quotes st; failed_requests := failed_requests st;
  requests := requests st; fetches := fetches st; sleeps := sleeps st ++ [d];
  ticks := ticks st
|}.

Definition tick (st : state) : state := {|
  visited_urls := visited_urls st;
  all_quotes := all_quotes st; quote_hashes := quote_hashes st;
  start_time := start_time st; total_pages := total_pages st;
  total_quotes := total_quotes st; failed_requests := failed_requests st;
  requests := requests st; fetches := fetches st; sleeps := sleeps st;
  ticks := S (ticks st)
|}.

Definition set_start_time (t : str) (st : state) : state := {|
  visited_urls := visited_urls st;
  all_quotes := all_quotes st; quote_hashes := quote_hashes st;
  start_time := Some t; total_pages := total_pages st;
  total_quotes := total_quotes st; failed_requests := failed_requests st;
  requests := requests st; fetches := fetches st; sleeps := sleeps st;
  ticks := ticks st
|}.

(** [visited_urls.clear()] and [quote_hashes.clear()], as the driver does
    before each seed. *)
Definition clear_seed (st : state) : state := {|
  visited_urls := ∅;
  all_quotes := all_quotes st; quote_hashes := ∅;
  start_time := start_time st; total_pages := total_pages st;
  total_quotes := total_quotes st; failed_requests := failed_requests st;
  requests := requests st; fetches := fetches st; sleeps := sleeps st;
  ticks := ticks st
|}.

(** ** The retry wrapper

    [retry_on_failure(max_retries, delay, exponential_backoff)] around a
    function that either returns or raises, with
    [exceptions = (Exception,)]. *)

Section Retry.
Context {A : Type}.
Variable max_retries : nat.
Variable delay : Z.
Variable exponential_backoff : bool.
Variable func : state -> (exception + A) * state.

(** The [for attempt in range(max_retries)] loop from [attempt] on, with
    [left] iterations to go; after the loop, [raise last_exception]
    (raising [None] is a [TypeError]). *)
Fixpoint retry_from (left attempt : nat) (last_exception : option exception)
    (st : state) : (exception + A) * state :=
  match left with
  | O =>
      (inl (match last_exception with Some e => e | None => TypeError end), st)
  | S left' =>
      match func st with
      | (inr v, st') => (inr v, st')
      | (inl e, st') =>
          if Nat.eqb attempt (max_retries - 1) then (inl e, st')
          else
            let current_delay :=
              if exponential_backoff then (delay * 2 ^ Z.of_nat attempt)%Z
              else delay in
            retry_from left' (S attempt) (Some e) (sleep current_delay st')
      end
  end.

Definition retry_on_failure (st : state) : (exception + A) * state :=
  retry_from max_retries 0 None st.
End Retry.

(** ** The engine *)

Inductive step :=
| Next (current_url : str) (page_count : nat)
| Stop.

Section Engine.
Context `{Unicode} `{Html}.
Variable cfg : config.                              (* config.settings *)
Variable urljoin : str -> str -> str.               (* urllib.parse.urljoin *)
Variable http_get : str -> nat -> exception + str.  (* outcome of the k-th request *)
Variable clock : nat -> str.                        (* datetime.now().isoformat() *)

(** [container.select_one(selector)] *)
Definition select_one (n : node) (selector : str) : option node :=
  head (select n selector).

(** [element.get_text(strip=True)]: the text nodes below the element,
    each stripped, the empty ones dropped, joined without separator. *)
Definition get_text_strip (n : node) : str :=
  concat (List.filter truthy (map strip (strings n))).

(** [_find_element_text] *)
Fixpoint find_text_in (container : node) (sels : list str) : option str :=
  match sels with
  | [] => None
  | selector :: rest =>
      if negb (truthy selector) then find_text_in container rest
      else
        match select_one container selector with
        | Some element =>
            let text := get_text_strip element in
            if truthy text then Some text else find_text_in container rest
        | None => find_text_in container rest
        end
  end.

Definition _find_element_text (container : node) (sels : selector) : option str :=
  find_text_in container (_ensure_list sels).

(** [_find_tags] *)
Fixpoint find_tags_in (container : node) (sels : list str) (tags : list str)
    : list str :=
  match sels with
  | [] => tags
  | selector :: rest =>
      if negb (truthy selector) then find_tags_in container rest tags
      else
        let elements := select container selector in
        find_tags_in container rest
          (fold_left
             (fun tags element =>
                let tag_text := get_text_strip element in
                if truthy tag_text then tags ++ [tag_text] else tags)
             elements tags)
  end.

Definition _find_tags (container : node) (sels : selector) : list str :=
  find_tags_in container (_ensure_list sels) [].

(** [_validate_quote_content] *)
Definition _validate_quote_content (quote_text : str) : bool :=
  if isdigit quote_text then false
  else if exceeds_03 (special_chars quote_text) (length quote_text) then false
  else true.

(** [_create_quote_object]; [now] is the clock reading that the record
    takes when it is built. *)
Definition _create_quote_object (now : str) (quote_text author : str)
    (tags : list str) : option Quote.t :=
  let quote_text := strip quote_text in
  let author := strip author in
  let min_len := min_quote_length cfg in
  let max_len := max_quote_length cfg in
  if (Z.of_nat (length quote_text) <? min_len)%Z
     || (max_len <? Z.of_nat (length quote_text))%Z then None
  else if negb (_validate_quote_content quote_text) then None
  else Some {| Quote.quote := quote_text;
               Quote.author := author;
               Quote.tags := tags;
               Quote.tags_count := length tags;
               Quote.timestamp := now |}.

(** [_generate_quote_hash] *)
Definition _generate_quote_hash (quote_text author : str) : str :=
  let content := lower (strip quote_text) ++ lit "|" ++ lower (strip author) in
  MD5.hexdigest (utf8 content).

(** [_is_unique_quote] *)
Definition _is_unique_quote (quote_obj : Quote.t) (st : state) : bool * state :=
  let quote_hash :=
    _generate_quote_hash (Quote.quote quote_obj) (Quote.author quote_obj) in
  if bool_decide (quote_hash ∈ quote_hashes st) then (false, st)
  else (true, add_hash quote_hash st).

(** The container search of [parse_quotes]: the matches of the first
    selector that has any. *)
Fixpoint find_containers (soup : node) (sels : list str) : list node :=
  match sels with
  | [] => []
  | selector :: rest =>
      match select soup selector with
      | [] => find_containers soup rest
      | containers => containers
      end
  end.

(** One iteration of [for container in quote_containers]. *)
Definition parse_container (sels : Sel.t) (acc : list Quote.t * state)
    (container : node) : list Quote.t * state :=
  let '(quotes_data, st) := acc in
  match _find_element_text container (Sel.text sels) with
  | None => acc
  | Some quote_text =>
      let author_text :=
        match _find_element_text container (Sel.author sels) with
        | Some a => a
        | None => lit "Unknown"
        end in
      let tags := _find_tags container (Sel.tags sels) in
      match _create_quote_object (clock (ticks st)) quote_text author_text tags with
      | None => acc
      | Some quote_obj =>
          let '(unique, st') := _is_unique_quote quote_obj (tick st) in
          if unique then (quotes_data ++ [quote_obj], st')
          else (quotes_data, st')
      end
  end.

(** [parse_quotes] *)
Definition parse_quotes (html : str) (sels : Sel.t) (st : state)
    : list Quote.t * state :=
  let soup := BeautifulSoup html in
  match find_containers soup (_ensure_list (Sel.quotes sels)) with
  | [] => ([], st)
  | quote_containers => fold_left (parse_container sels) quote_containers ([], st)
  end.

(** [has_next_page] *)
Fixpoint next_link_in (soup : node) (sels : list str) : option str :=
  match sels with
  | [] => None
  | selector :: rest =>
      match select_one soup selector with
      | Some next_element =>
          match get next_element (lit "href") with
          | Some href => if truthy href then Some href else next_link_in soup rest
          | None => next_link_in soup rest
          end
      | None => next_link_in soup rest
      end
  end.

Definition has_next_page (html : str) (sels : Sel.t) : option str :=
  next_link_in (BeautifulSoup html) (_ensure_list (Sel.next_page sels)).

(** The body of [fetch_page]: one request, which returns the page text
    or raises. *)
Definition fetch_page_once (url : str) (st : state) : (exception + str) * state :=
  (http_get url (length (requests st)), log_request url st).

(** [fetch_page], decorated with
    [retry_on_failure(max_retries=3, delay=2, exponential_backoff=True)]. *)
Definition fetch_page (url : str) (st : state) : (exception + str) * state :=
  retry_on_failure 3 2 true (fetch_page_once url) st.

(** The body of the [while] loop of [parse_all_pages]. *)
Definition page (sels : Sel.t) (delay : Z) (current_url : str)
    (page_count : nat) (st : state) : step * state :=
  let st := if (0 <? delay)%Z && Nat.ltb 0 page_count then sleep delay st else st in
  match fetch_page current_url (log_fetch current_url st) with
  | (inl e, st) => (Stop, count_failure st)
  | (inr html, st) =>
      let st := add_visited current_url st in
      let '(quotes, st) := parse_quotes html sels st in
      let st := record_page quotes st in
      match has_next_page html sels with
      | Some next_page =>
          if truthy next_page
          then (Next (urljoin current_url next_page) (S page_count), st)
          else (Stop, st)
      | None => (Stop, st)
      end
  end.

(** [while current_url and current_url not in self.visited_urls] *)
Definition continues (current_url : str) (st : state) : bool :=
  truthy current_url && negb (bool_decide (current_url ∈ visited_urls st)).

Fixpoint walk (fuel : nat) (sels : Sel.t) (delay : Z) (current_url : str)
    (page_count : nat) (st : state) : option state :=
  if continues current_url st then
    match fuel with
    | O => None
    | S fuel' =>
        match page sels delay current_url page_count st with
        | (Next url count, st') => walk fuel' sels delay url count st'
        | (Stop, st') => Some st'
        end
    end
  else Some st.

(** [parse_all_pages] *)
Definition parse_all_pages (fuel : nat) (start_url : str) (delay : Z)
    (st : state) : option state :=
  let sels := detect_site_type start_url in
  let st := set_start_time (clock (ticks st)) (tick st) in
  walk fuel sels delay start_url 0 st.

End Engine.

(** ** Vocabulary of the statements *)

(** The fingerprint of a record, as [_is_unique_quote] computes it. *)
Definition fingerprint `{Unicode} (q : Quote.t) : str :=
  _generate_quote_hash (Quote.quote q) (Quote.author q).

(** Every field of a selector set has at least one candidate. *)
Definition has_candidates (s : Sel.t) : Prop :=
  _ensure_list (Sel.quotes s) <> [] /\ _ensure_list (Sel.text s) <> [] /\
  _ensure_list (Sel.author s) <> [] /\ _ensure_list (Sel.tags s) <> [] /\
  _ensure_list (Sel.next_page s) <> [].

(** The count that the design document words as "non-alphanumeric,
    non-whitespace characters". *)
Definition non_alnum_non_space `{Unicode} (s : str) : nat :=
  length (List.filter (fun c => negb (isalnum c) && negb (isspace c)) s).

(** Characters of the Latin-1 block whose upper-case form lower-cases back
    to their lower-case form and is one character long: all of the block
    but U+00B5 and U+00DF. *)
Definition case_stable (s : str) : Prop :=
  Forall (fun c => c < 256 /\ c <> 181 /\ c <> 223) s.

(** The trimmed texts that one tag selector contributes. *)
Definition tags_of `{Unicode} `{Html} (container : node) (selector : str) : list str :=
  List.filter truthy (map get_text_strip (select container selector)).

(** The state in which the attempt number [attempt + k] of a retried call
    runs, when the attempts from [attempt] (run in [st]) up to it all fail:
    each failure is followed by the back-off sleep. *)
Fixpoint nth_attempt {A : Type} (delay : Z) (backoff : bool)
    (func : state -> (exception + A) * state) (attempt k : nat) (st : state)
    : state :=
  match k with
  | O => st
  | S k' =>
      nth_attempt delay backoff func (S attempt) k'
        (sleep (if backoff then (delay * 2 ^ Z.of_nat attempt)%Z else delay)
               (snd (func st)))
  end.

(** The parser attributes that neither a page fetch nor the extraction of
    a page touches. *)
Definition same_parser (st st' : state) : Prop :=
  visited_urls st' = visited_urls st /\ all_quotes st' = all_quotes st /\
  start_time st' = start_time st /\ total_pages st' = total_pages st /\
  total_quotes st' = total_quotes st /\
  failed_requests st' = failed_requests st /\ fetches st' = fetches st.

(** The records of [quotes] were accepted against the index [seen]: their
    fingerprints are pairwise distinct, new with respect to [seen] and
    registered in the index of [st']. *)
Definition accepted_against `{Unicode} (seen : gset str) (quotes : list Quote.t)
    (st' : state) : Prop :=
  NoDup (map fingerprint quotes) /\
  (forall q, q ∈ quotes ->
     (fingerprint q ∈ quote_hashes st') /\ (fingerprint q ∉ seen)) /\
  seen ⊆ quote_hashes st'.

(** ** A small concrete document model

    Documents for the worked examples: an element carries its text nodes,
    its [href] attribute and, per selector, the elements that the selector
    matches below it.  A site is a table from page text to parsed page. *)

#[warnings="-register-all"]
Inductive toy :=
| Toy (texts : list str) (href : option str) (matches : list (str * list toy)).

Fixpoint assoc {B : Type} (k : str) (l : list (str * B)) : option B :=
  match l with
  | [] => None
  | (k', v) :: rest => if str_eqb k' k then Some v else assoc k rest
  end.

Definition toy_select (n : toy) (selector : str) : list toy :=
  match n with
  | Toy _ _ ms => match assoc selector ms with Some l => l | None => [] end
  end.

Definition toy_strings (n : toy) : list str :=
  match n with Toy ts _ _ => ts end.

Definition toy_get (n : toy) (attr : str) : option str :=
  match n with
  | Toy _ h _ => if str_eqb attr (lit "href") then h else None
  end.

Definition toy_site (pages : list (str * toy)) : Html := {|
  node := toy;
  BeautifulSoup html :=
    match assoc html pages with Some n => n | None => Toy [] None [] end;
  select := toy_select;
  strings := toy_strings;
  get := toy_get
|}.

(** An element with text only. *)
Definition leaf (s : string) : toy := Toy [lit s] None [].

(** The one-character upper-case form where there is one. *)
Definition upper1 (c : N) : N :=
  match latin1_upper_ch c with
  | [d] => d
  | _ => c
  end.

Definition case_stable_ch (c : N) : bool :=
  bool_decide (latin1_upper_ch c = [upper1 c]) &&
  Bool.eqb (latin1_isspace (upper1 c)) (latin1_isspace c) &&
  bool_decide (latin1_lower_ch (upper1 c) = latin1_lower_ch c).

(** *** Worked data

    A two-page site on the registered host whose second page links back to
    the first, a host that is down, and a few containers. *)

(** [urljoin] for links that are absolute paths on the registered host. *)
Definition host_urljoin (base href : str) : str := base_url toscrape ++ href.

Definition quote_el (text author : string) (tags : list string) : toy :=
  Toy [] None
    [(lit "span.text", [leaf text]); (lit "small.author", [leaf author]);
     (lit "a.tag", map leaf tags)].

Definition anonymous_el (text : string) : toy :=
  Toy [] None [(lit "span.text", [leaf text])].

Definition empty_el : toy := Toy [] None [(lit "span.text", [leaf "   "])].

Definition next_el (href : string) : toy := Toy [] (Some (lit href)) [].

Definition page_one : toy :=
  Toy [] None
    [(lit "div.quote",
      [quote_el "The world is a book, and we read it." "Augustine" ["books"; "travel"]%string;
       quote_el "Simplicity is the final achievement." "Chopin" ["art"]%string;
       quote_el " the WORLD is a book, and we read it. " "AUGUSTINE" []]);
     (lit "li.next a", [next_el "/page/2/"])].

Definition page_two : toy :=
  Toy [] None
    [(lit "div.quote", [anonymous_el "Nothing is certain but change."; empty_el]);
     (lit "li.next a", [next_el "/"])].

Definition cycle_site : Html :=
  toy_site [(lit "<one>", page_one); (lit "<two>", page_two)].

Definition url_one : str := lit "http://quotes.toscrape.com/".
Definition url_two : str := lit "http://quotes.toscrape.com/page/2/".

Definition cycle_get (url : str) (k : nat) : exception + str :=
  if str_eqb url url_one then inr (lit "<one>")
  else if str_eqb url url_two then inr (lit "<two>")
  else inl (HTTPError 404).

Definition down_get (url : str) (k : nat) : exception + str :=
  match k with
  | O => inl Timeout
  | S O => inl RequestException
  | _ => inl (HTTPError 503)
  end.

Definition fixed_clock (k : nat) : str := lit "2025-11-20T12:00:00".

(** A page on which the first container candidate matches nothing. *)
Definition fallback_page : toy :=
  Toy [] None [(lit "b", [anonymous_el "first"; anonymous_el "second"])].

Definition fallback_site : Html := toy_site [(lit "<fallback>", fallback_page)].

(** A container whose two tag candidates both match, one tag twice. *)
Definition tagged_el : toy :=
  Toy [] None
    [(lit ".tag", [leaf "love"; leaf " life "; leaf "  "]); (lit ".tags", [leaf "love"])].

(** ** Further vocabulary *)

(** The trimmed text of the first element that a selector matches, empty
    when it matches nothing. *)
Definition first_text `{Unicode} `{Html} (container : node) (selector : str) : str :=
  match select_one container selector with
  | Some element => get_text_strip element
  | None => []
  end.

(** The [href] of the first element that a selector matches, empty when
    there is no such element or it has no [href]. *)
Definition first_href `{Html} (soup : node) (selector : str) : str :=
  match select_one soup selector with
  | Some element => default [] (get element (lit "href"))
  | None => []
  end.

(** The parser after the walk of the two-page site. *)
Definition cycle_result : state :=
  default fresh
    (@parse_all_pages latin1 cycle_site DEFAULT_CONFIG host_urljoin cycle_get
       fixed_clock 10 url_one 1 fresh).

(** A fetcher whose first request times out and whose second succeeds. *)
Definition flaky_get (url : str) (k : nat) : exception + str :=
  match k with
  | O => inl Timeout
  | _ => cycle_get url k
  end.

(** The URLs of the two-page site. *)
Definition cycle_urls : gset (list N) := {[url_one; url_two]}.

(** ** Configuration files

    [ConfigManager] keeps its settings in a dict and updates it from a
    JSON file.  A JSON value is modelled with its Python type; a float is
    its finite value [m * 2^e], an infinity or a NaN. *)

Inductive pyfloat :=
| Finite (m e : Z)
| PosInf
| NegInf
| NaN.

#[warnings="-register-all"]
Inductive pyval :=
| VInt (z : Z)
| VBool (b : bool)
| VFloat (f : pyfloat)
| VStr (s : str)
| VNone
| VList (l : list pyval)
| VDict (items : list (str * pyval)).

(** [v > n] for an int [n] (also [n < v]): exact on numbers, [bool]
    counting as 0 or 1, false on NaN, a [TypeError] on anything else. *)
Definition num_gt (v : pyval) (n : Z) : exception + bool :=
  match v with
  | VInt z => inr (n <? z)%Z
  | VBool b => inr (n <? Z.b2z b)%Z
  | VFloat (Finite m e) =>
      inr (if (0 <=? e)%Z then (n <? m * 2 ^ e)%Z else (n * 2 ^ (- e) <? m)%Z)
  | VFloat PosInf => inr true
  | VFloat NegInf => inr false
  | VFloat NaN => inr false
  | _ => inl TypeError
  end.

(** [min(x, hi)]: [hi] when [hi < x], else [x]. *)
Definition py_min (x : pyval) (hi : Z) : exception + pyval :=
  match num_gt x hi with
  | inl e => inl e
  | inr b => inr (if b then VInt hi else x)
  end.

(** [max(lo, y)]: [y] when [y > lo], else [lo]. *)
Definition py_max (lo : Z) (y : pyval) : exception + pyval :=
  match num_gt y lo with
  | inl e => inl e
  | inr b => inr (if b then y else VInt lo)
  end.

(** [max(lo, min(x, hi))] *)
Definition clamp (lo hi : Z) (x : pyval) : exception + pyval :=
  match py_min x hi with
  | inl e => inl e
  | inr y => py_max lo y
  end.

(** [key in config] followed, when it holds, by [config[key]]: [None]
    when the key is absent.  A list or a string that contains the key
    cannot be subscripted with it, and a number or [None] has no [in]. *)
Definition lookup_key (key : str) (config : pyval) : exception + option pyval :=
  match config with
  | VDict items => inr (assoc key items)
  | VList l =>
      if existsb (fun x => match x with VStr s => str_eqb key s | _ => false end) l
      then inl TypeError else inr None
  | VStr s => if str_in key s then inl TypeError else inr None
  | _ => inl TypeError
  end.

Definition is_number (v : pyval) : bool :=
  match v with
  | VInt _ | VBool _ | VFloat _ => true
  | _ => false
  end.

(** The settings dict of a configuration record. *)
Definition settings_of (c : config) : gmap (list N) pyval :=
  list_to_map
    [(lit "request_timeout", VInt (request_timeout c));
     (lit "max_retries", VInt (max_retries c));
     (lit "retry_delay", VInt (retry_delay c));
     (lit "user_agent", VStr (user_agent c));
     (lit "respect_robots", VBool (respect_robots c));
     (lit "min_quote_length", VInt (min_quote_length c));
     (lit "max_quote_length", VInt (max_quote_length c));
     (lit "default_delay", VInt (default_delay c))].

Section ConfigManager.
Variable py_str : pyval -> str.   (* str(value) *)

(** One [if key in config: validated[key] = f(config[key])]. *)
Definition validate_key (key : str) (f : pyval -> exception + pyval)
    (config : pyval) (validated : gmap (list N) pyval)
    : exception + gmap (list N) pyval :=
  match lookup_key key config with
  | inl e => inl e
  | inr None => inr validated
  | inr (Some x) =>
      match f x with
      | inl e => inl e
      | inr y => inr (<[key := y]> validated)
      end
  end.

(** [_validate_config] *)
Definition _validate_config (config : pyval) : exception + gmap (list N) pyval :=
  match validate_key (lit "request_timeout") (clamp 5 60) config ∅ with
  | inl e => inl e
  | inr validated =>
      match validate_key (lit "max_retries") (clamp 1 10) config validated with
      | inl e => inl e
      | inr validated =>
          validate_key (lit "user_agent") (fun x => inr (VStr (py_str x)))
            config validated
      end
  end.

(** [load_config]; [parsed] is what opening the file and [json.load]
    give: the JSON value, or the exception they raise. *)
Definition load_config (parsed : exception + pyval)
    (settings : gmap (list N) pyval) : bool * gmap (list N) pyval :=
  match parsed with
  | inl _ => (false, settings)
  | inr user_config =>
      match _validate_config user_config with
      | inl _ => (false, settings)
      | inr validated_config => (true, validated_config ∪ settings)
      end
  end.

(** [ConfigManager.__init__]: the defaults, updated from the file when a
    file name is given. *)
Definition ConfigManager (config_file : option (exception + pyval))
    : gmap (list N) pyval :=
  match config_file with
  | None => settings_of DEFAULT_CONFIG
  | Some parsed => snd (load_config parsed (settings_of DEFAULT_CONFIG))
  end.

End ConfigManager.

(** [str] of a string is the string; the examples need no more. *)
Definition str_of_text (v : pyval) : str :=
  match v with
  | VStr s => s
  | _ => lit "?"
  end.

(** A number that is neither above [hi] nor below [lo]. *)
Definition within (lo hi : Z) (r : pyval) : Prop :=
  is_number r = true /\ num_gt r hi = inr false /\
  (r = VInt lo \/ num_gt r lo = inr true).

(** The keys that [_validate_config] lets through. *)
Definition validated_key (k : list N) : Prop :=
  k = lit "request_timeout" \/ k = lit "max_retries" \/ k = lit "user_agent".

(** A configuration file with a timeout beyond the range, a fractional
    retry count (2.5) and keys that the validation does not know. *)
Definition example_file : pyval :=
  VDict [(lit "request_timeout", VInt 500);
         (lit "max_retries", VFloat (Finite 5 (-1)));
         (lit "user_agent", VStr (lit "quote-bot"));
         (lit "min_quote_length", VInt 3);
         (lit "respect_robots", VBool false)].

(** ** The robots policy check *)

Module Response.
Record t := {
  status_code : Z;
  text : str
}.
End Response.

Section Robots.
Variable urlparse : str -> exception + (str * str).     (* scheme and netloc *)
Variable session_get : str -> exception + Response.t.   (* session.get(url, timeout=10) *)
Variable can_fetch : str -> str -> str -> bool.
  (* RobotFileParser over the lines of a policy: user agent, URL *)

(** [check_robots_txt]; the second component lists the URLs requested. *)
Definition check_robots_txt (cfg : config) (url : str) : bool * list str :=
  if negb (respect_robots cfg) then (true, [])
  else
    match urlparse url with
    | inl _ => (true, [])
    | inr (scheme, netloc) =>
        let robots_url := scheme ++ lit "://" ++ netloc ++ lit "/robots.txt" in
        match session_get robots_url with
        | inl _ => (true, [robots_url])
        | inr response =>
            if (Response.status_code response =? 404)%Z then (true, [robots_url])
            else (can_fetch (Response.text response) (user_agent cfg) url,
                  [robots_url])
        end
    end.
End Robots.

(** ** Export *)

(** [sep.join(l)] *)
Fixpoint join (sep : str) (l : list str) : str :=
  match l with
  | [] => []
  | [x] => x
  | x :: rest => x ++ sep ++ join sep rest
  end.

(** What follows the first ["."] of a string, if it has one. *)
Fixpoint after_dot (s : str) : option str :=
  match s with
  | [] => None
  | c :: rest => if c =? 46 then Some rest else after_dot rest
  end.

(** [filename.rsplit('.', 1)[0] if '.' in filename else filename] *)
Definition base_name (filename : str) : str :=
  match after_dot (rev filename) with
  | Some r => rev r
  | None => filename
  end.

Inductive cell :=
| CInt (n : nat)
| CStr (s : str).

Module Metadata.
Record t := {
  source : str;
  version : str;
  total_quotes : nat;
  total_pages : nat;
  unique_authors : nat;
  timestamp : str;
  execution_time : option str
}.
End Metadata.

(** What is handed to [json.dump] or to the [csv] writer. *)
Inductive export :=
| JsonFile (metadata : Metadata.t) (quotes : list Quote.t)
| CsvFile (rows : list (list cell)).

(** [len(set(q['author'] for q in self.all_quotes))] *)
Definition unique_authors (quotes : list Quote.t) : nat :=
  size (list_to_set (map Quote.author quotes) : gset (list N)).

Section Exporter.
Context `{Unicode}.
Variable now : str.                 (* datetime.now().isoformat() *)
Variable elapsed : str -> str.      (* str(datetime.now() - start_time) *)
Variable writable : str -> bool.    (* whether open(filename, 'w') succeeds *)

(** The data of [_save_json]. *)
Definition json_data (st : state) : export :=
  JsonFile
    {| Metadata.source := lit "Universal Quote Parser";
       Metadata.version := lit "2.0";
       Metadata.total_quotes := length (all_quotes st);
       Metadata.total_pages := size (visited_urls st);
       Metadata.unique_authors := unique_authors (all_quotes st);
       Metadata.timestamp := now;
       Metadata.execution_time := option_map elapsed (start_time st) |}
    (all_quotes st).

(** The rows of [_save_csv] after the header, numbered from [idx]. *)
Fixpoint csv_rows (idx : nat) (quotes : list Quote.t) : list (list cell) :=
  match quotes with
  | [] => []
  | quote_data :: rest =>
      [CInt idx; CStr (Quote.quote quote_data); CStr (Quote.author quote_data);
       CStr (join (lit ", ") (Quote.tags quote_data));
       CInt (Quote.tags_count quote_data); CStr (Quote.timestamp quote_data)]
      :: csv_rows (S idx) rest
  end.

(** The rows of [_save_csv]. *)
Definition csv_data (st : state) : export :=
  CsvFile
    ([CStr (lit "ID"); CStr (lit "Quote"); CStr (lit "Author"); CStr (lit "Tags");
      CStr (lit "Tags Count"); CStr (lit "Timestamp")]
     :: csv_rows 1 (all_quotes st)).

(** [save_data]: the result and the file written, if any. *)
Definition save_data (filename format : str) (st : state)
    : bool * option (str * export) :=
  match all_quotes st with
  | [] => (false, None)
  | _ :: _ =>
      let output_file := base_name filename ++ lit "." ++ lower format in
      if str_eqb (lower format) (lit "json") then
        if writable output_file then (true, Some (output_file, json_data st))
        else (false, None)
      else if str_eqb (lower format) (lit "csv") then
        if writable output_file then (true, Some (output_file, csv_data st))
        else (false, None)
      else (false, None)
  end.
End Exporter.

(** A site without a policy file, and one that forbids everything. *)
Definition split_origin (url : str) : exception + (str * str) :=
  inr (lit "http", lit "quotes.toscrape.com").

Definition no_policy (url : str) : exception + Response.t :=
  inr {| Response.status_code := 404; Response.text := lit "Not Found" |}.

Definition closed_policy (url : str) : exception + Response.t :=
  inr {| Response.status_code := 200; Response.text := lit "User-agent: * Disallow: /" |}.

Definition deny_all (policy user_agent url : str) : bool := false.

(** ** The driver *)


(** [quote_parser.all_quotes = all_results] *)
Definition set_all_quotes (quotes : list Quote.t) (st : state) : state := {|
  visited_urls := visited_urls st;
  all_quotes := quotes; quote_hashes := quote_hashes st;
  start_time := start_time st; total_pages := total_pages st;
  total_quotes := total_quotes st; failed_requests := failed_requests st;
  requests := requests st; fetches := fetches st; sleeps := sleeps st;
  ticks := ticks st
|}.

Section Driver.
Context `{Unicode} `{Html}.
Variable cfg : config.
Variable urljoin : str -> str -> str.
Variable http_get : str -> nat -> exception + str.
Variable clock : nat -> str.
Variable robots : nat -> str -> bool.   (* check_robots_txt at the i-th seed *)

(** The [for i, url in enumerate(AUTO_URLS, 1)] loop of [main], from seed
    number [i] of [total] on; [all_results] is the list that the loop
    extends. *)
Fixpoint run_seeds (fuel i total : nat) (urls : list str) (st : state)
    (all_results : list Quote.t) : option (state * list Quote.t) :=
  match urls with
  | [] => Some (st, all_results)
  | url :: rest =>
      let st := clear_seed st in
      if negb (robots i url) then run_seeds fuel (S i) total rest st all_results
      else
        match parse_all_pages cfg urljoin http_get clock fuel url 1 st with
        | None => None
        | Some st =>
            let all_results :=
              match all_quotes st with
              | [] => all_results
              | _ :: _ => all_results ++ all_quotes st
              end in
            let st := if Nat.ltb i total then sleep 2 st else st in
            run_seeds fuel (S i) total rest st all_results
        end
  end.

(** [main] up to the export: the start-up pause, the seeds, and the
    replacement of [all_quotes] by the accumulated list when it is not
    empty. *)
Definition main_loop (fuel : nat) (urls : list str)
    : option (state * list Quote.t) :=
  match run_seeds fuel 1 (length urls) urls (sleep 2 fresh) [] with
  | None => None
  | Some (st, all_results) =>
      Some (match all_results with
            | [] => st
            | _ :: _ => set_all_quotes all_results st
            end, all_results)
  end.
End Driver.

(** The two pages of the small site as two seeds, all robots checks
    passing. *)
Definition two_seeds_result : state * list Quote.t :=
  default (fresh, [])
    (@run_seeds latin1 cycle_site DEFAULT_CONFIG host_urljoin cycle_get
       fixed_clock (fun _ _ => true) 10 1 2 [url_one; url_two] (sleep 2 fresh) []).

(** A page whose first next-page element has no [href], and a file whose
    timeout is not a number. *)
Definition broken_next_site : Html :=
  toy_site [(lit "<broken>",
             Toy [] None [(lit "li.next a", [Toy [] None []; next_el "/page/2/"])])].

Definition bad_file : pyval :=
  VDict [(lit "request_timeout", VStr (lit "fast"));
         (lit "user_agent", VStr (lit "quote-bot"))].

(** * Properties *)

(** ** Reference vectors for the hash *)

Example md5_empty :
  MD5.hexdigest (utf8 (lit "")) = lit "d41d8cd98f00b204e9800998ecf8427e".
Proof. vm_compute. reflexivity. Qed.

Example md5_abc :
  MD5.hexdigest (utf8 (lit "abc")) = lit "900150983cd24fb0d6963f7d28e17f72".
Proof. vm_compute. reflexivity. Qed.

Example md5_two_blocks :
  MD5.hexdigest (utf8 (repeat 97 70)) = lit "0f5c6c4e740bfcc08c3c26ccb2673d46".
Proof. vm_compute. reflexivity. Qed.

Example md5_eszett :
  MD5.hexdigest (utf8 ([223] ++ lit "|x")) = lit "b9e3a79a02236f97f29c24bc2f2369c4".
Proof. vm_compute. reflexivity. Qed.

(** ** Strings *)

Lemma truthy_true (s : str) : truthy s = true <-> s <> [].
Proof. destruct s; simpl; split; intros; congruence. Qed.

Lemma truthy_false (s : str) : truthy s = false <-> s = [].
Proof. destruct s; simpl; split; intros; congruence. Qed.

Lemma startswith_spec (s p : str) :
  startswith s p = true <-> exists post, s = p ++ post.
Proof.
  revert s. induction p as [|c p IH]; intros s.
  - split; [intros _; exists s; reflexivity | intros _; destruct s; reflexivity].
  - destruct s as [|d s]; cbn [startswith].
    + split; [discriminate | intros [post Hp]; discriminate].
    + rewrite andb_true_iff, N.eqb_eq, IH. split.
      * intros [-> [post ->]]. exists post. reflexivity.
      * intros [post Hp]. injection Hp as -> ->. split; [reflexivity | eauto].
Qed.

Lemma str_in_spec (needle haystack : str) :
  str_in needle haystack = true <->
  exists pre post, haystack = pre ++ needle ++ post.
Proof.
  induction haystack as [|c h IH].
  - cbn [str_in]. rewrite orb_false_r, startswith_spec. split.
    + intros [post Hp]. exists [], post. exact Hp.
    + intros [pre [post Hp]]. destruct pre; [|discriminate].
      exists post. exact Hp.
  - cbn [str_in]. rewrite orb_true_iff, startswith_spec, IH. split.
    + intros [[post Hp] | [pre [post Hp]]].
      * exists [], post. exact Hp.
      * exists (c :: pre), post. rewrite Hp. reflexivity.
    + intros [pre [post Hp]]. destruct pre as [|d pre].
      * left. exists post. exact Hp.
      * right. injection Hp as _ Hp. exists pre, post. exact Hp.
Qed.

Lemma startswith_str_in (s p : str) : startswith s p = true -> str_in p s = true.
Proof.
  rewrite startswith_spec, str_in_spec. intros [post ->]. exists [], post. reflexivity.
Qed.

(** ** Selector resolution *)

Lemma detect_site_type_unfold (url : str) :
  detect_site_type url =
  if str_in (base_url toscrape) url then selectors toscrape else universal_selectors.
Proof. reflexivity. Qed.

Lemma has_candidates_toscrape : has_candidates (selectors toscrape).
Proof. repeat split; discriminate. Qed.

Lemma has_candidates_universal : has_candidates universal_selectors.
Proof. repeat split; discriminate. Qed.

(** C9, as amended: [detect_site_type] is total; it returns the registered
    profile exactly when the registered base URL occurs anywhere in the
    URL (so in particular when the URL equals or starts with it) and the
    universal set otherwise; either way every field has a candidate. *)
Theorem detect_site_type_by_containment (url : str) :
  ((exists pre post, url = pre ++ base_url toscrape ++ post) ->
     detect_site_type url = selectors toscrape) /\
  (~ (exists pre post, url = pre ++ base_url toscrape ++ post) ->
     detect_site_type url = universal_selectors) /\
  (startswith url (base_url toscrape) = true ->
     detect_site_type url = selectors toscrape) /\
  has_candidates (detect_site_type url).
Proof.
  rewrite detect_site_type_unfold.
  destruct (str_in (base_url toscrape) url) eqn:E.
  - split; [reflexivity|]. split.
    + intros Hn. exfalso. apply Hn. apply str_in_spec. exact E.
    + split; [reflexivity | apply has_candidates_toscrape].
  - split.
    + intros Hin. apply str_in_spec in Hin. congruence.
    + split; [reflexivity|]. split.
      * intros Hp. apply startswith_str_in in Hp. congruence.
      * apply has_candidates_universal.
Qed.

Lemma detect_site_type_by_containment_witness :
  detect_site_type (lit "http://quotes.toscrape.com/tag/love/") = selectors toscrape.
Proof.
  apply (proj1 (detect_site_type_by_containment
                  (lit "http://quotes.toscrape.com/tag/love/"))).
  exists [], (lit "/tag/love/"). reflexivity.
Defined.

(** C9, as stated, fails: a URL that neither equals nor starts with the
    registered base URL, but carries it in its query string, resolves to
    the registered profile and not to the universal set. *)
Lemma detect_site_type_inner_substring :
  startswith (lit "http://mirror.example/?src=http://quotes.toscrape.com")
             (base_url toscrape) = false /\
  detect_site_type (lit "http://mirror.example/?src=http://quotes.toscrape.com")
    = selectors toscrape /\
  detect_site_type (lit "http://mirror.example/?src=http://quotes.toscrape.com")
    <> universal_selectors.
Proof. repeat split. vm_compute. discriminate. Qed.

(** ** Trimming *)

Section StripFacts.
Context `{Unicode}.

Lemma lstrip_spaces (ws s : str) :
  forallb isspace ws = true -> lstrip (ws ++ s) = lstrip s.
Proof.
  induction ws as [|c ws IH]; simpl; [reflexivity|].
  intros Hws. apply andb_true_iff in Hws as [Hc Hws].
  rewrite Hc. auto.
Qed.

Lemma lstrip_nil (s : str) : lstrip s = [] <-> forallb isspace s = true.
Proof.
  induction s as [|c s IH]; simpl; [tauto|].
  destruct (isspace c); simpl; [exact IH|]. split; discriminate.
Qed.

Lemma lstrip_head (s : str) c r : lstrip s = c :: r -> isspace c = false.
Proof.
  induction s as [|d s IH]; simpl; [discriminate|].
  destruct (isspace d) eqn:E; [exact IH|]. intros [= <- _]. exact E.
Qed.

Lemma lstrip_snoc (l : str) c :
  isspace c = false -> lstrip (l ++ [c]) = lstrip l ++ [c].
Proof.
  intros Hc. induction l as [|d l IH]; simpl.
  - rewrite Hc. reflexivity.
  - destruct (isspace d); [exact IH | reflexivity].
Qed.

Lemma lstrip_app (t x : str) : lstrip t <> [] -> lstrip (t ++ x) = lstrip t ++ x.
Proof.
  induction t as [|d t IH]; simpl; [congruence|].
  destruct (isspace d); [exact IH | reflexivity].
Qed.

Lemma forallb_rev (f : N -> bool) (l : str) : forallb f (rev l) = forallb f l.
Proof.
  induction l as [|c l IH]; simpl; [reflexivity|].
  rewrite forallb_app, IH. simpl. rewrite andb_true_r. apply andb_comm.
Qed.

(** A string that starts with a non-space character keeps it under [strip]. *)
Lemma strip_cons (c : N) (r : str) :
  isspace c = false -> strip (c :: r) = c :: rev (lstrip (rev r)).
Proof.
  intros Hc. unfold strip, rstrip. simpl. rewrite Hc. simpl.
  rewrite lstrip_snoc by exact Hc. rewrite rev_app_distr. reflexivity.
Qed.

Lemma strip_nil (s : str) : strip s = [] <-> forallb isspace s = true.
Proof.
  unfold strip, rstrip. destruct (lstrip s) as [|c r] eqn:E.
  - simpl. rewrite <- lstrip_nil. tauto.
  - pose proof (lstrip_head _ _ _ E) as Hc.
    simpl. rewrite lstrip_snoc by exact Hc. rewrite rev_app_distr. simpl.
    split; [discriminate|]. intros Hall. apply lstrip_nil in Hall. congruence.
Qed.

Lemma strip_head (s : str) c r : strip s = c :: r -> isspace c = false.
Proof.
  unfold strip, rstrip. destruct (lstrip s) as [|d u] eqn:E; [discriminate|].
  pose proof (lstrip_head _ _ _ E) as Hd.
  simpl. rewrite lstrip_snoc by exact Hd. rewrite rev_app_distr. simpl.
  intros [= <- _]. exact Hd.
Qed.

(** Surrounding whitespace does not survive [strip]. *)
Lemma strip_padding (w1 t w2 : str) :
  forallb isspace w1 = true -> forallb isspace w2 = true ->
  strip (w1 ++ t ++ w2) = strip t.
Proof.
  intros H1 H2. unfold strip. rewrite lstrip_spaces by exact H1.
  destruct (lstrip t) as [|c r] eqn:E.
  - apply lstrip_nil in E.
    assert (Hall : forallb isspace (t ++ w2) = true)
      by (rewrite forallb_app, E, H2; reflexivity).
    apply lstrip_nil in Hall. rewrite Hall. reflexivity.
  - rewrite lstrip_app by congruence. rewrite E. unfold rstrip.
    rewrite rev_app_distr. rewrite lstrip_spaces; [reflexivity|].
    rewrite forallb_rev. exact H2.
Qed.

End StripFacts.

(** ** The record extractor *)

Section ExtractorFacts.
Context `{Unicode} `{Html}.
Variable cfg : config.
Variable clock : nat -> str.

(** *** Text of an element *)

Lemma get_text_strip_head (e : node) :
  get_text_strip e <> [] ->
  exists c r, get_text_strip e = c :: r /\ isspace c = false.
Proof.
  unfold get_text_strip. induction (strings e) as [|x xs IH]; simpl; [congruence|].
  destruct (strip x) as [|c r] eqn:E; simpl; [exact IH|].
  intros _. exists c, (r ++ concat (List.filter truthy (map strip xs))).
  split; [reflexivity | exact (strip_head _ _ _ E)].
Qed.

Lemma get_text_strip_stripped (e : node) :
  get_text_strip e <> [] -> strip (get_text_strip e) <> [].
Proof.
  intros Hne. destruct (get_text_strip_head e Hne) as (c & r & -> & Hc).
  rewrite strip_cons by exact Hc. discriminate.
Qed.

Lemma find_text_in_some (container : node) (sels : list str) (t : str) :
  find_text_in container sels = Some t ->
  exists selector element,
    selector ∈ sels /\ select_one container selector = Some element /\
    t = get_text_strip element /\ t <> [].
Proof.
  induction sels as [|s sels IH]; simpl; [discriminate|].
  assert (Hrest : find_text_in container sels = Some t ->
    exists selector element,
      selector ∈ s :: sels /\ select_one container selector = Some element /\
      t = get_text_strip element /\ t <> []).
  { intros Hr. destruct (IH Hr) as (s' & e & Hin & Hrest).
    exists s', e. split; [right; exact Hin | exact Hrest]. }
  destruct (truthy s); simpl; [|exact Hrest].
  destruct (select_one container s) as [e|] eqn:Es; [|exact Hrest].
  destruct (truthy (get_text_strip e)) eqn:Et; [|exact Hrest].
  intros [= <-]. exists s, e. repeat split; [left | exact Es |].
  apply truthy_true. exact Et.
Qed.

(** *** Tags *)

Lemma fold_tags (elements : list node) (acc : list str) :
  fold_left
    (fun tags element =>
       let tag_text := get_text_strip element in
       if truthy tag_text then tags ++ [tag_text] else tags)
    elements acc
  = acc ++ List.filter truthy (map get_text_strip elements).
Proof.
  revert acc. induction elements as [|e es IH]; intros acc; simpl.
  - rewrite app_nil_r. reflexivity.
  - rewrite IH. destruct (truthy (get_text_strip e)); [|reflexivity].
    rewrite <- app_assoc. reflexivity.
Qed.

Lemma find_tags_in_spec (container : node) (sels : list str) (acc : list str) :
  find_tags_in container sels acc
  = acc ++ flat_map (tags_of container) (List.filter truthy sels).
Proof.
  revert acc. induction sels as [|s sels IH]; intros acc; simpl.
  - rewrite app_nil_r. reflexivity.
  - destruct (truthy s); simpl; [|apply IH].
    rewrite IH, fold_tags, <- app_assoc. reflexivity.
Qed.

(** C7: [_find_tags] returns, for the non-empty selector candidates in
    order, the non-empty trimmed texts of all the elements each of them
    matches, concatenated: later candidates contribute even when earlier
    ones matched, and nothing is deduplicated. *)
Theorem find_tags_union (container : node) (sels : selector) :
  _find_tags container sels
    = flat_map (tags_of container) (List.filter truthy (_ensure_list sels)) /\
  (forall a b : str, a <> [] -> b <> [] ->
     _find_tags container (Many [a; b])
       = tags_of container a ++ tags_of container b) /\
  (forall t : str,
     t ∈ _find_tags container sels <->
     exists selector element,
       selector ∈ _ensure_list sels /\ selector <> [] /\
       element ∈ select container selector /\
       get_text_strip element = t /\ t <> []).
Proof.
  assert (Heq : forall l, find_tags_in container l []
                 = flat_map (tags_of container) (List.filter truthy l))
    by (intros l; apply find_tags_in_spec).
  split; [apply Heq|]. split.
  - intros a b Ha Hb. unfold _find_tags. rewrite Heq. simpl.
    apply truthy_true in Ha, Hb. rewrite Ha, Hb. simpl.
    rewrite app_nil_r. reflexivity.
  - intros t. unfold _find_tags. rewrite Heq.
    rewrite list_elem_of_In, in_flat_map. split.
    + intros (s & Hs & Ht). apply filter_In in Hs as [Hs Hts].
      unfold tags_of in Ht. apply filter_In in Ht as [Ht Htt].
      apply in_map_iff in Ht as (e & He & Hin).
      exists s, e. rewrite !list_elem_of_In.
      repeat split; auto; apply truthy_true; assumption.
    + intros (s & e & Hs & Hne & He & Ht & Htne).
      rewrite list_elem_of_In in Hs. rewrite list_elem_of_In in He.
      exists s. split.
      * apply filter_In. split; [exact Hs | apply truthy_true; exact Hne].
      * unfold tags_of. apply filter_In. split.
        -- apply in_map_iff. exists e. split; assumption.
        -- apply truthy_true. exact Htne.
Qed.

(** *** Containers *)

Lemma find_containers_first (soup : node) (before : list str) (s : str)
    (after : list str) :
  Forall (fun s' => select soup s' = []) before ->
  select soup s <> [] ->
  find_containers soup (before ++ s :: after) = select soup s.
Proof.
  intros Hb Hs. induction Hb as [|b before Hb _ IH]; simpl.
  - destruct (select soup s); [congruence | reflexivity].
  - rewrite Hb. exact IH.
Qed.

Lemma find_containers_none (soup : node) (sels : list str) :
  Forall (fun s' => select soup s' = []) sels -> find_containers soup sels = [].
Proof.
  intros Hall. induction Hall as [|b sels Hb _ IH]; simpl; [reflexivity|].
  rewrite Hb. exact IH.
Qed.

(** C6: the containers of a page are exactly the matches of the first
    container candidate that matches anything, and [parse_quotes]
    processes those and no others; when no candidate matches,
    [parse_quotes] returns the empty list and leaves the parser as it was;
    with candidates [a; b] of which only [b] matches, [b]'s elements are
    used. *)
Theorem parse_quotes_first_match (html : str) (sels : Sel.t) (st : state) :
  (forall before s after,
     _ensure_list (Sel.quotes sels) = before ++ s :: after ->
     Forall (fun s' => select (BeautifulSoup html) s' = []) before ->
     select (BeautifulSoup html) s <> [] ->
     find_containers (BeautifulSoup html) (_ensure_list (Sel.quotes sels))
       = select (BeautifulSoup html) s /\
     parse_quotes cfg clock html sels st
       = fold_left (parse_container cfg clock sels)
                   (select (BeautifulSoup html) s) ([], st)) /\
  (Forall (fun s' => select (BeautifulSoup html) s' = [])
          (_ensure_list (Sel.quotes sels)) ->
     parse_quotes cfg clock html sels st = ([], st)) /\
  (forall a b,
     _ensure_list (Sel.quotes sels) = [a; b] ->
     select (BeautifulSoup html) a = [] ->
     select (BeautifulSoup html) b <> [] ->
     find_containers (BeautifulSoup html) (_ensure_list (Sel.quotes sels))
       = select (BeautifulSoup html) b).
Proof.
  split; [|split].
  - intros before s after Hl Hb Hs.
    pose proof (find_containers_first _ before s after Hb Hs) as Hf.
    rewrite <- Hl in Hf. split; [exact Hf|].
    unfold parse_quotes. rewrite Hf.
    destruct (select (BeautifulSoup html) s); [congruence | reflexivity].
  - intros Hnone. unfold parse_quotes.
    rewrite (find_containers_none _ _ Hnone). reflexivity.
  - intros a b Hl Ha Hb. rewrite Hl.
    apply (find_containers_first _ [a] b []); [|exact Hb].
    constructor; [exact Ha | constructor].
Qed.

(** *** Record creation *)

Lemma create_quote_object_some (now t a : str) (tags : list str) (q : Quote.t) :
  _create_quote_object cfg now t a tags = Some q <->
  (min_quote_length cfg <= Z.of_nat (length (strip t)) <= max_quote_length cfg)%Z /\
  _validate_quote_content (strip t) = true /\
  q = {| Quote.quote := strip t; Quote.author := strip a; Quote.tags := tags;
         Quote.tags_count := length tags; Quote.timestamp := now |}.
Proof.
  unfold _create_quote_object.
  destruct (Z.ltb_spec (Z.of_nat (length (strip t))) (min_quote_length cfg));
  destruct (Z.ltb_spec (max_quote_length cfg) (Z.of_nat (length (strip t)))); simpl;
    try (split; [discriminate | intros [Hb _]; lia]).
  destruct (_validate_quote_content (strip t)); simpl.
  - split; [intros [= <-]; repeat split; lia | intros (_ & _ & ->); reflexivity].
  - split; [discriminate | intros (_ & Hv & _); discriminate].
Qed.

(** C4: for a trimmed text that passes the content checks, a record is
    created exactly when its length lies between [min_quote_length] and
    [max_quote_length], both inclusive: the lengths [min] and [max] are
    accepted, [min - 1] and [max + 1] are rejected.  Every created record
    has a text within the bounds and a [tags_count] equal to the number of
    its tags. *)
Theorem create_quote_object_boundaries (now text author : str) (tags : list str) :
  (strip text = text -> _validate_quote_content text = true ->
   (min_quote_length cfg <= max_quote_length cfg)%Z ->
     (Z.of_nat (length text) = min_quote_length cfg ->
        is_Some (_create_quote_object cfg now text author tags)) /\
     (Z.of_nat (length text) = (min_quote_length cfg - 1)%Z ->
        _create_quote_object cfg now text author tags = None) /\
     (Z.of_nat (length text) = max_quote_length cfg ->
        is_Some (_create_quote_object cfg now text author tags)) /\
     (Z.of_nat (length text) = (max_quote_length cfg + 1)%Z ->
        _create_quote_object cfg now text author tags = None) /\
     (is_Some (_create_quote_object cfg now text author tags) <->
        (min_quote_length cfg <= Z.of_nat (length text) <= max_quote_length cfg)%Z)) /\
  (forall q, _create_quote_object cfg now text author tags = Some q ->
     (min_quote_length cfg <= Z.of_nat (length (Quote.quote q))
        <= max_quote_length cfg)%Z /\
     Quote.tags_count q = length (Quote.tags q)).
Proof.
  split.
  - intros Htrim Hvalid Hcfg.
    assert (Hiff : is_Some (_create_quote_object cfg now text author tags) <->
      (min_quote_length cfg <= Z.of_nat (length text) <= max_quote_length cfg)%Z).
    { split.
      - intros [q Hq]. apply create_quote_object_some in Hq as (Hb & _ & _).
        rewrite Htrim in Hb. exact Hb.
      - intros Hb. eexists. apply create_quote_object_some.
        rewrite Htrim. repeat split; [lia | lia | exact Hvalid]. }
    assert (Hnone : ~ (min_quote_length cfg <= Z.of_nat (length text)
                         <= max_quote_length cfg)%Z ->
                    _create_quote_object cfg now text author tags = None).
    { intros Hout. destruct (_create_quote_object cfg now text author tags) eqn:E;
        [|reflexivity].
      exfalso. apply Hout, Hiff. eauto. }
    split; [|split; [|split; [|split]]].
    + intros Hlen. apply Hiff. lia.
    + intros Hlen. apply Hnone. lia.
    + intros Hlen. apply Hiff. lia.
    + intros Hlen. apply Hnone. lia.
    + exact Hiff.
  - intros q Hq. apply create_quote_object_some in Hq as (Hb & _ & ->). simpl.
    split; [exact Hb | reflexivity].
Qed.

(** *** One container *)

Lemma parse_container_cases (sels : Sel.t) (qs : list Quote.t) (st : state)
    (c : node) :
  parse_container cfg clock sels (qs, st) c = (qs, st) \/
  exists t q,
    _find_element_text c (Sel.text sels) = Some t /\
    _create_quote_object cfg (clock (ticks st)) t
      (default (lit "Unknown") (_find_element_text c (Sel.author sels)))
      (_find_tags c (Sel.tags sels)) = Some q /\
    (((fingerprint q ∈ quote_hashes st) /\
      parse_container cfg clock sels (qs, st) c = (qs, tick st)) \/
     ((fingerprint q ∉ quote_hashes st) /\
      parse_container cfg clock sels (qs, st) c
        = (qs ++ [q], add_hash (fingerprint q) (tick st)))).
Proof.
  unfold parse_container.
  destruct (_find_element_text c (Sel.text sels)) as [t|]; [|left; reflexivity].
  change (match _find_element_text c (Sel.author sels) with
          | Some a => a | None => lit "Unknown" end)
    with (default (lit "Unknown") (_find_element_text c (Sel.author sels))).
  destruct (_create_quote_object _ _ _ _ _) as [q|] eqn:Eq; [|left; reflexivity].
  right. exists t, q. split; [reflexivity|]. split; [exact Eq|].
  unfold _is_unique_quote. fold (fingerprint q).
  change (quote_hashes (tick st)) with (quote_hashes st).
  destruct (bool_decide_reflect (fingerprint q ∈ quote_hashes st)); [left | right];
    split; auto.
Qed.

Lemma fold_parse_container_inv (I : list Quote.t -> state -> Prop) (sels : Sel.t) :
  (forall qs st c, I qs st ->
     I (fst (parse_container cfg clock sels (qs, st) c))
       (snd (parse_container cfg clock sels (qs, st) c))) ->
  forall cs qs st, I qs st ->
    I (fst (fold_left (parse_container cfg clock sels) cs (qs, st)))
      (snd (fold_left (parse_container cfg clock sels) cs (qs, st))).
Proof.
  intros Hstep cs. induction cs as [|c cs IH]; intros qs st Hi; cbn [fold_left];
    [exact Hi|].
  destruct (parse_container cfg clock sels (qs, st) c) as [qs' st'] eqn:E.
  apply IH. specialize (Hstep qs st c Hi). rewrite E in Hstep. exact Hstep.
Qed.

Lemma parse_quotes_inv (I : list Quote.t -> state -> Prop) (sels : Sel.t) :
  (forall qs st c, I qs st ->
     I (fst (parse_container cfg clock sels (qs, st) c))
       (snd (parse_container cfg clock sels (qs, st) c))) ->
  forall html st, I [] st ->
    I (fst (parse_quotes cfg clock html sels st))
      (snd (parse_quotes cfg clock html sels st)).
Proof.
  intros Hstep html st Hi. unfold parse_quotes.
  destruct (find_containers _ _) as [|c cs]; [exact Hi|].
  apply fold_parse_container_inv; assumption.
Qed.

(** *** Emitted records *)

Lemma parse_container_text_nonempty (sels : Sel.t) (qs : list Quote.t)
    (st : state) (c : node) :
  (forall q, q ∈ qs -> Quote.quote q <> []) ->
  forall q, q ∈ fst (parse_container cfg clock sels (qs, st) c) ->
    Quote.quote q <> [].
Proof.
  intros Hqs q.
  destruct (parse_container_cases sels qs st c)
    as [-> | (t & q' & Ht & Hq' & [[_ ->] | [_ ->]])]; simpl; auto.
  rewrite elem_of_app, list_elem_of_singleton. intros [Hin | ->]; [auto|].
  apply create_quote_object_some in Hq' as (_ & _ & ->). simpl.
  apply find_text_in_some in Ht as (s & e & _ & _ & -> & Hne).
  apply get_text_strip_stripped. exact Hne.
Qed.

(** C10: a container in which no text candidate yields non-empty trimmed
    text leaves the result and the parser untouched; a container with text
    but without author is processed with the author ["Unknown"]; and every
    record that [parse_quotes] emits has a non-empty text. *)
Theorem text_required_author_optional (sels : Sel.t) (container : node)
    (qs : list Quote.t) (st : state) :
  (_find_element_text container (Sel.text sels) = None ->
     parse_container cfg clock sels (qs, st) container = (qs, st)) /\
  (forall t,
     _find_element_text container (Sel.text sels) = Some t ->
     _find_element_text container (Sel.author sels) = None ->
     parse_container cfg clock sels (qs, st) container =
       match _create_quote_object cfg (clock (ticks st)) t (lit "Unknown")
               (_find_tags container (Sel.tags sels)) with
       | None => (qs, st)
       | Some q =>
           if bool_decide (fingerprint q ∈ quote_hashes st) then (qs, tick st)
           else (qs ++ [q], add_hash (fingerprint q) (tick st))
       end) /\
  (forall now t tags q,
     _create_quote_object cfg now t (lit "Unknown") tags = Some q ->
     Quote.author q = strip (lit "Unknown")) /\
  (forall html q,
     q ∈ fst (parse_quotes cfg clock html sels st) -> Quote.quote q <> []).
Proof.
  split; [|split; [|split]].
  - intros Ht. unfold parse_container. rewrite Ht. reflexivity.
  - intros t Ht Ha. unfold parse_container. rewrite Ht, Ha.
    destruct (_create_quote_object _ _ _ _ _) as [q|]; [|reflexivity].
    unfold _is_unique_quote. fold (fingerprint q).
    change (quote_hashes (tick st)) with (quote_hashes st).
    destruct (bool_decide (fingerprint q ∈ quote_hashes st)); reflexivity.
  - intros now t tags q Hq.
    apply create_quote_object_some in Hq as (_ & _ & ->). reflexivity.
  - intros html.
    apply (parse_quotes_inv
             (fun qs _ => forall q, q ∈ qs -> Quote.quote q <> []) sels).
    + intros qs' st' c Hqs. apply parse_container_text_nonempty. exact Hqs.
    + intros q Hq. inversion Hq.
Qed.

(** *** Deduplication within a page *)

Lemma is_unique_quote_spec (q : Quote.t) (st : state) :
  (fingerprint q ∈ quote_hashes st -> _is_unique_quote q st = (false, st)) /\
  (fingerprint q ∉ quote_hashes st ->
     _is_unique_quote q st = (true, add_hash (fingerprint q) st)).
Proof.
  unfold _is_unique_quote. fold (fingerprint q).
  destruct (bool_decide_reflect (fingerprint q ∈ quote_hashes st));
    split; intros; try reflexivity; contradiction.
Qed.

Lemma parse_container_accepted (seen : gset str) (st0 : state) (sels : Sel.t)
    (qs : list Quote.t) (st : state) (c : node) :
  accepted_against seen qs st /\ same_parser st0 st /\
  requests st = requests st0 /\ sleeps st = sleeps st0 ->
  accepted_against seen (fst (parse_container cfg clock sels (qs, st) c))
                        (snd (parse_container cfg clock sels (qs, st) c)) /\
  same_parser st0 (snd (parse_container cfg clock sels (qs, st) c)) /\
  requests (snd (parse_container cfg clock sels (qs, st) c)) = requests st0 /\
  sleeps (snd (parse_container cfg clock sels (qs, st) c)) = sleeps st0.
Proof.
  intros ((Hnd & Hin & Hsub) & Hsame & Hreq & Hsl).
  unfold accepted_against, same_parser in *.
  destruct (parse_container_cases sels qs st c)
    as [-> | (t & q & _ & _ & [[_ ->] | [Hnew ->]])]; simpl.
  - tauto.
  - tauto.
  - split; [|tauto]. split; [|split].
    + rewrite map_app. apply NoDup_app. split; [exact Hnd|]. split.
      * intros h Hh Hq. apply list_elem_of_singleton in Hq. subst h.
        apply list_elem_of_fmap in Hh as (q' & Hfp & Hq').
        apply Hnew. rewrite Hfp. apply Hin. exact Hq'.
      * apply NoDup_singleton.
    + intros q'. rewrite elem_of_app, list_elem_of_singleton.
      intros [Hq' | ->].
      * destruct (Hin q' Hq') as [Ha Hb].
        split; [apply elem_of_union; right; exact Ha | exact Hb].
      * split.
        -- apply elem_of_union. left. apply elem_of_singleton. reflexivity.
        -- intros Hs. apply Hnew, Hsub, Hs.
    + intros h Hh. apply elem_of_union. right. apply Hsub, Hh.
Qed.

Lemma parse_quotes_accepted (html : str) (sels : Sel.t) (st : state) :
  accepted_against (quote_hashes st) (fst (parse_quotes cfg clock html sels st))
                   (snd (parse_quotes cfg clock html sels st)) /\
  same_parser st (snd (parse_quotes cfg clock html sels st)) /\
  requests (snd (parse_quotes cfg clock html sels st)) = requests st /\
  sleeps (snd (parse_quotes cfg clock html sels st)) = sleeps st.
Proof.
  apply (parse_quotes_inv
           (fun qs st' => accepted_against (quote_hashes st) qs st' /\
                          same_parser st st' /\
                          requests st' = requests st /\ sleeps st' = sleeps st) sels).
  - intros qs st' c. apply parse_container_accepted.
  - unfold accepted_against, same_parser. repeat split; try reflexivity.
    + apply NoDup_nil_2.
    + inversion H1.
    + inversion H1.
Qed.

End ExtractorFacts.

(** ** The retry wrapper and the page fetch *)

Section WalkerFacts.
Context `{Unicode} `{Html}.
Variable cfg : config.
Variable urljoin : str -> str -> str.
Variable http_get : str -> nat -> exception + str.
Variable clock : nat -> str.

Lemma retry_from_inv {A : Type} (P : state -> Prop) (max_retries : nat)
    (delay : Z) (backoff : bool) (func : state -> (exception + A) * state) :
  (forall st, P st -> P (snd (func st))) ->
  (forall d st, P st -> P (sleep d st)) ->
  forall left attempt last st, P st ->
    P (snd (retry_from max_retries delay backoff func left attempt last st)).
Proof.
  intros Hf Hs left. induction left as [|left IH]; intros attempt last st Hp; simpl.
  - exact Hp.
  - specialize (Hf st Hp). destruct (func st) as [[e|v] st']; simpl in *.
    + destruct (Nat.eqb attempt (max_retries - 1)); [exact Hf|].
      apply IH. apply Hs. exact Hf.
    + exact Hf.
Qed.

(** A page fetch touches nothing but the request and sleep logs. *)
Lemma fetch_page_frame (url : str) (st : state) :
  same_parser st (snd (fetch_page http_get url st)) /\
  quote_hashes (snd (fetch_page http_get url st)) = quote_hashes st /\
  ticks (snd (fetch_page http_get url st)) = ticks st.
Proof.
  unfold fetch_page, retry_on_failure.
  apply (retry_from_inv
           (fun st' => same_parser st st' /\ quote_hashes st' = quote_hashes st /\
                       ticks st' = ticks st)).
  - intros st' Hp. exact Hp.
  - intros d st' Hp. exact Hp.
  - unfold same_parser. tauto.
Qed.

(** A first attempt that succeeds is the whole fetch. *)
Lemma fetch_page_first_try (url html : str) (st : state) :
  http_get url (length (requests st)) = inr html ->
  fetch_page http_get url st = (inr html, log_request url st).
Proof.
  intros Hok. unfold fetch_page, retry_on_failure. cbn [retry_from].
  unfold fetch_page_once. rewrite Hok. reflexivity.
Qed.

(** Three failed attempts: two sleeps of 2 and 4 seconds between three
    requests, and the error of the third attempt is raised. *)
Lemma fetch_page_exhausted (url : str) (st : state) (e1 e2 e3 : exception) :
  http_get url (length (requests st)) = inl e1 ->
  http_get url (length (requests st) + 1) = inl e2 ->
  http_get url (length (requests st) + 2) = inl e3 ->
  fetch_page http_get url st
  = (inl e3,
     log_request url (sleep 4 (log_request url (sleep 2 (log_request url st))))).
Proof.
  intros H1' H2' H3'. unfold fetch_page, retry_on_failure. cbn [retry_from].
  unfold fetch_page_once at 1. rewrite H1'. cbn [Nat.eqb Nat.sub].
  unfold fetch_page_once at 1. cbn [requests sleep log_request].
  rewrite length_app. cbn [length]. rewrite H2'. cbn [Nat.eqb Nat.sub].
  unfold fetch_page_once at 1. cbn [requests sleep log_request].
  rewrite !length_app. cbn [length].
  replace (length (requests st) + 1 + 1)%nat with (length (requests st) + 2)%nat by lia.
  rewrite H3'. reflexivity.
Qed.

Lemma next_link_in_truthy (soup : node) (sels : list str) (l : str) :
  next_link_in soup sels = Some l -> truthy l = true.
Proof.
  induction sels as [|s sels IH]; cbn [next_link_in]; [discriminate|].
  destruct (select_one soup s) as [e|]; [|exact IH].
  destruct (get e (lit "href")) as [h|]; [|exact IH].
  destruct (truthy h) eqn:E; [|exact IH]. intros [= <-]. exact E.
Qed.

(** ** One page of the walk *)

Lemma politeness_frame (delay : Z) (page_count : nat) (st : state) :
  let st' := if (0 <? delay)%Z && Nat.ltb 0 page_count then sleep delay st else st in
  same_parser st st' /\ quote_hashes st' = quote_hashes st /\
  requests st' = requests st /\ ticks st' = ticks st.
Proof.
  unfold same_parser.
  destruct ((0 <? delay)%Z && Nat.ltb 0 page_count); simpl; tauto.
Qed.

(** What any iteration of the loop does to the parser: one more
    [fetch_page] call, a visited set that only grows and holds the current
    URL when the loop goes on, and new records accepted against the
    index. *)
Lemma page_frame (sels : Sel.t) (delay : Z) (u : str) (pc : nat) (st : state) :
  fetches (snd (page cfg urljoin http_get clock sels delay u pc st))
    = fetches st ++ [u] /\
  visited_urls st
    ⊆ visited_urls (snd (page cfg urljoin http_get clock sels delay u pc st)) /\
  (forall u' pc',
     fst (page cfg urljoin http_get clock sels delay u pc st) = Next u' pc' ->
     u ∈ visited_urls (snd (page cfg urljoin http_get clock sels delay u pc st))) /\
  exists quotes,
    all_quotes (snd (page cfg urljoin http_get clock sels delay u pc st))
      = all_quotes st ++ quotes /\
    accepted_against (quote_hashes st) quotes
      (snd (page cfg urljoin http_get clock sels delay u pc st)).
Proof.
  unfold page.
  pose proof (politeness_frame delay pc st) as Hd. cbv zeta in Hd.
  set (st_d := if (0 <? delay)%Z && Nat.ltb 0 pc then sleep delay st else st) in *.
  destruct Hd as ((Hv & Hq & _ & _ & _ & _ & Hf) & Hh & _ & _).
  pose proof (fetch_page_frame u (log_fetch u st_d)) as Hfp.
  destruct (fetch_page http_get u (log_fetch u st_d)) as [[e|html] st1].
  - destruct Hfp as ((Hv1 & Hq1 & _ & _ & _ & _ & Hf1) & Hh1 & _).
    simpl in *. rewrite Hf1, Hf, Hv1, Hv, Hq1, Hq.
    split; [reflexivity|]. split; [reflexivity|]. split; [discriminate|].
    exists []. rewrite app_nil_r. split; [reflexivity|].
    unfold accepted_against. simpl. rewrite Hh1, Hh.
    split; [apply NoDup_nil_2|]. split; [|reflexivity].
    intros q Hq'. inversion Hq'.
  - destruct Hfp as ((Hv1 & Hq1 & _ & _ & _ & _ & Hf1) & Hh1 & _).
    pose proof (parse_quotes_accepted cfg clock html sels (add_visited u st1)) as Hp.
    destruct (parse_quotes cfg clock html sels (add_visited u st1)) as [quotes st2].
    destruct Hp as (Hacc & (Hv2 & Hq2 & _ & _ & _ & _ & Hf2) & _ & _).
    simpl in *.
    assert (Hall :
      fetches (record_page quotes st2) = fetches st ++ [u] /\
      visited_urls st ⊆ visited_urls (record_page quotes st2) /\
      u ∈ visited_urls (record_page quotes st2) /\
      exists quotes0,
        all_quotes (record_page quotes st2) = all_quotes st ++ quotes0 /\
        accepted_against (quote_hashes st) quotes0 (record_page quotes st2)).
    { simpl. rewrite Hf2, Hf1, Hf, Hv2, Hv1, Hv, Hq2, Hq1, Hq.
      split; [reflexivity|]. split; [apply union_subseteq_r|].
      split; [apply elem_of_union; left; apply elem_of_singleton; reflexivity|].
      exists quotes. split; [reflexivity|].
      rewrite Hh1, Hh in Hacc. exact Hacc. }
    destruct Hall as (Ha & Hb & Hc & Hd).
    destruct (has_next_page html sels) as [l|]; [destruct (truthy l)|]; simpl;
      (split; [exact Ha|]; split; [exact Hb|]; split; [|exact Hd]);
      intros; try discriminate; exact Hc.
Qed.

(** A page whose first request succeeds. *)
Lemma page_success (sels : Sel.t) (delay : Z) (u html : str) (pc : nat)
    (st : state) :
  http_get u (length (requests st)) = inr html ->
  exists st',
    page cfg urljoin http_get clock sels delay u pc st
      = (match has_next_page html sels with
         | Some l => Next (urljoin u l) (S pc)
         | None => Stop
         end, st') /\
    visited_urls st' = {[u]} ∪ visited_urls st /\
    fetches st' = fetches st ++ [u] /\
    requests st' = requests st ++ [u] /\
    total_pages st' = (total_pages st + 1)%nat /\
    failed_requests st' = failed_requests st.
Proof.
  intros Hok. unfold page.
  pose proof (politeness_frame delay pc st) as Hd. cbv zeta in Hd.
  set (st_d := if (0 <? delay)%Z && Nat.ltb 0 pc then sleep delay st else st) in *.
  destruct Hd as ((Hv & _ & _ & Hp & _ & Hfr & Hf) & _ & Hr & _).
  rewrite (fetch_page_first_try u html (log_fetch u st_d))
    by (simpl; rewrite Hr; exact Hok).
  pose proof (parse_quotes_accepted cfg clock html sels
                (add_visited u (log_request u (log_fetch u st_d)))) as Hpq.
  destruct (parse_quotes cfg clock html sels _) as [quotes st2].
  destruct Hpq as (_ & (Hv2 & _ & _ & Hp2 & _ & Hfr2 & Hf2) & Hr2 & _).
  simpl in *.
  exists (record_page quotes st2). split.
  - destruct (has_next_page html sels) as [l|] eqn:El; [|reflexivity].
    unfold has_next_page in El. rewrite (next_link_in_truthy _ _ _ El). reflexivity.
  - simpl. rewrite Hv2, Hf2, Hr2, Hp2, Hfr2, Hv, Hf, Hr, Hp, Hfr. tauto.
Qed.

(** A page whose three requests fail. *)
Lemma page_failure (sels : Sel.t) (delay : Z) (u : str) (pc : nat) (st : state)
    (e1 e2 e3 : exception) :
  http_get u (length (requests st)) = inl e1 ->
  http_get u (length (requests st) + 1) = inl e2 ->
  http_get u (length (requests st) + 2) = inl e3 ->
  exists st',
    page cfg urljoin http_get clock sels delay u pc st = (Stop, st') /\
    failed_requests st' = (failed_requests st + 1)%nat /\
    total_pages st' = total_pages st /\
    total_quotes st' = total_quotes st /\
    visited_urls st' = visited_urls st /\
    all_quotes st' = all_quotes st /\
    fetches st' = fetches st ++ [u] /\
    requests st' = requests st ++ [u; u; u].
Proof.
  intros H1' H2' H3'. unfold page.
  pose proof (politeness_frame delay pc st) as Hd. cbv zeta in Hd.
  set (st_d := if (0 <? delay)%Z && Nat.ltb 0 pc then sleep delay st else st) in *.
  destruct Hd as ((Hv & Hq & _ & Hp & Htq & Hfr & Hf) & _ & Hr & _).
  rewrite (fetch_page_exhausted u (log_fetch u st_d) e1 e2 e3)
    by (simpl; rewrite Hr; assumption).
  eexists. split; [reflexivity|]. simpl.
  rewrite Hv, Hq, Hp, Htq, Hfr, Hf, Hr, <- !app_assoc. simpl. tauto.
Qed.

(** ** The walk *)

Lemma continues_spec (u : str) (st : state) :
  continues u st = true <-> u <> [] /\ u ∉ visited_urls st.
Proof.
  unfold continues. rewrite andb_true_iff, truthy_true, negb_true_iff.
  rewrite bool_decide_eq_false. tauto.
Qed.

Lemma walk_unfold (fuel : nat) (sels : Sel.t) (delay : Z) (u : str) (pc : nat)
    (st : state) :
  walk cfg urljoin http_get clock fuel sels delay u pc st =
  if continues u st then
    match fuel with
    | O => None
    | S fuel' =>
        match page cfg urljoin http_get clock sels delay u pc st with
        | (Next url count, st') =>
            walk cfg urljoin http_get clock fuel' sels delay url count st'
        | (Stop, st') => Some st'
        end
    end
  else Some st.
Proof. destruct fuel; reflexivity. Qed.

Lemma walk_visited (fuel : nat) (sels : Sel.t) (delay : Z) (u : str) (pc : nat)
    (st : state) :
  u ∈ visited_urls st ->
  walk cfg urljoin http_get clock fuel sels delay u pc st = Some st.
Proof.
  intros Hin. rewrite walk_unfold.
  destruct (continues u st) eqn:E; [|reflexivity].
  apply continues_spec in E as [_ Hn]. contradiction.
Qed.

(** The [fetch_page] calls of a walk are pairwise distinct and avoid the
    URLs that were visited before it. *)
Lemma walk_fetches (fuel : nat) (sels : Sel.t) (delay : Z) :
  forall (u : str) (pc : nat) (st st' : state),
    walk cfg urljoin http_get clock fuel sels delay u pc st = Some st' ->
    exists new,
      fetches st' = fetches st ++ new /\ NoDup new /\
      (forall x, x ∈ new -> x ∉ visited_urls st) /\
      visited_urls st ⊆ visited_urls st'.
Proof.
  assert (Hstay : forall st : state, exists new : list (list N),
            fetches st = fetches st ++ new /\ NoDup new /\
            (forall x, x ∈ new -> x ∉ visited_urls st) /\
            visited_urls st ⊆ visited_urls st).
  { intros st. exists []. rewrite app_nil_r. split; [reflexivity|].
    split; [apply NoDup_nil_2|]. split; [|reflexivity].
    intros x Hx. inversion Hx. }
  induction fuel as [|fuel IH]; intros u pc st st'; rewrite walk_unfold;
    destruct (continues u st) eqn:Ec;
    try (intros [= <-]; apply Hstay).
  apply continues_spec in Ec as [_ Hu].
  pose proof (page_frame sels delay u pc st) as (Hf & Hsub & Hnext & _).
  destruct (page cfg urljoin http_get clock sels delay u pc st) as [[u1 pc1|] st1];
    simpl in *.
  - intros Hw. destruct (IH _ _ _ _ Hw) as (new & Hf' & Hnd & Hnew & Hsub').
    exists (u :: new). split; [|split; [|split]].
    + rewrite Hf', Hf, <- app_assoc. reflexivity.
    + apply NoDup_cons. split; [|exact Hnd].
      intros Hin. apply (Hnew u Hin). eapply Hnext. reflexivity.
    + intros x Hx. apply elem_of_cons in Hx as [-> | Hx]; [exact Hu|].
      intros Hv. apply (Hnew x Hx). apply Hsub, Hv.
    + etransitivity; eassumption.
  - intros [= <-]. exists [u]. split; [exact Hf|]. split; [apply NoDup_singleton|].
    split; [|exact Hsub].
    intros x Hx. apply list_elem_of_singleton in Hx. subst x. exact Hu.
Qed.

Lemma accepted_against_app (seen : gset str) (qs1 qs2 : list Quote.t)
    (st1 st2 : state) :
  accepted_against seen qs1 st1 ->
  accepted_against (quote_hashes st1) qs2 st2 ->
  accepted_against seen (qs1 ++ qs2) st2.
Proof.
  intros (Hnd1 & Hin1 & Hsub1) (Hnd2 & Hin2 & Hsub2). split; [|split].
  - rewrite map_app. apply NoDup_app. split; [exact Hnd1|]. split; [|exact Hnd2].
    intros h Hh1 Hh2.
    apply list_elem_of_fmap in Hh1 as (q1 & -> & Hq1).
    apply list_elem_of_fmap in Hh2 as (q2 & Hfp & Hq2).
    apply (Hin2 q2 Hq2). rewrite <- Hfp. apply (Hin1 q1 Hq1).
  - intros q Hq. apply elem_of_app in Hq as [Hq | Hq].
    + destruct (Hin1 q Hq) as [Ha Hb]. split; [apply Hsub2, Ha | exact Hb].
    + destruct (Hin2 q Hq) as [Ha Hb]. split; [exact Ha|].
      intros Hs. apply Hb, Hsub1, Hs.
  - etransitivity; eassumption.
Qed.

(** The records that a walk appends were accepted against the index it
    started with. *)
Lemma walk_accepted (fuel : nat) (sels : Sel.t) (delay : Z) :
  forall (u : str) (pc : nat) (st st' : state),
    walk cfg urljoin http_get clock fuel sels delay u pc st = Some st' ->
    exists new,
      all_quotes st' = all_quotes st ++ new /\
      accepted_against (quote_hashes st) new st'.
Proof.
  assert (Hstay : forall st : state, exists new : list Quote.t,
            all_quotes st = all_quotes st ++ new /\
            accepted_against (quote_hashes st) new st).
  { intros st. exists []. rewrite app_nil_r. split; [reflexivity|].
    split; [apply NoDup_nil_2|]. split; [|reflexivity].
    intros q Hq. inversion Hq. }
  induction fuel as [|fuel IH]; intros u pc st st'; rewrite walk_unfold;
    destruct (continues u st) eqn:Ec;
    try (intros [= <-]; apply Hstay).
  pose proof (page_frame sels delay u pc st) as (_ & _ & _ & quotes & Hq & Hacc).
  destruct (page cfg urljoin http_get clock sels delay u pc st) as [[u1 pc1|] st1];
    simpl in *.
  - intros Hw. destruct (IH _ _ _ _ Hw) as (new & Hq' & Hacc').
    exists (quotes ++ new). split.
    + rewrite Hq', Hq, <- app_assoc. reflexivity.
    + eapply accepted_against_app; eassumption.
  - intros [= <-]. exists quotes. split; assumption.
Qed.

(** ** Pagination termination *)

(** C1: a walk whose current URL is already visited returns at once,
    without a fetch; when the next link of the current page resolves to a
    visited URL, the walk ends after that page, having fetched the current
    URL and nothing else; the [fetch_page] calls of any walk that returns
    are pairwise distinct and avoid the URLs visited before; and on a
    two-page cycle (page [u] links to [b], page [b] links back to [u])
    [parse_all_pages] returns for every fuel of at least two, after
    fetching [u] and [b] once each. *)
Theorem pagination_stops_at_visited (sels : Sel.t) (delay : Z) (u : str)
    (pc : nat) (st : state) :
  (u ∈ visited_urls st ->
     forall fuel, walk cfg urljoin http_get clock fuel sels delay u pc st = Some st) /\
  (forall u' pc' st',
     continues u st = true ->
     page cfg urljoin http_get clock sels delay u pc st = (Next u' pc', st') ->
     u' ∈ visited_urls st' ->
     forall fuel,
       walk cfg urljoin http_get clock (S fuel) sels delay u pc st = Some st' /\
       fetches st' = fetches st ++ [u]) /\
  (forall fuel st',
     walk cfg urljoin http_get clock fuel sels delay u pc st = Some st' ->
     exists new,
       fetches st' = fetches st ++ new /\ NoDup new /\
       (forall x, x ∈ new -> x ∉ visited_urls st)) /\
  (forall b page_u page_b link_u link_b,
     u <> [] -> b <> [] -> u <> b ->
     u ∉ visited_urls st -> b ∉ visited_urls st ->
     http_get u (length (requests st)) = inr page_u ->
     http_get b (length (requests st) + 1) = inr page_b ->
     has_next_page page_u (detect_site_type u) = Some link_u ->
     urljoin u link_u = b ->
     has_next_page page_b (detect_site_type u) = Some link_b ->
     urljoin b link_b = u ->
     forall fuel, (2 <= fuel)%nat ->
       exists st',
         parse_all_pages cfg urljoin http_get clock fuel u delay st = Some st' /\
         fetches st' = fetches st ++ [u; b] /\
         requests st' = requests st ++ [u; b] /\
         visited_urls st' = {[b]} ∪ ({[u]} ∪ visited_urls st) /\
         total_pages st' = (total_pages st + 2)%nat /\
         failed_requests st' = failed_requests st).
Proof.
  split; [|split; [|split]].
  - intros Hin fuel. apply walk_visited. exact Hin.
  - intros u' pc' st' Hc Hp Hin fuel. split.
    + rewrite walk_unfold, Hc, Hp. apply walk_visited. exact Hin.
    + pose proof (page_frame sels delay u pc st) as (Hf & _).
      rewrite Hp in Hf. exact Hf.
  - intros fuel st' Hw.
    destruct (walk_fetches fuel sels delay u pc st st' Hw) as (new & Ha & Hb & Hc & _).
    exists new. auto.
  - intros b page_u page_b link_u link_b Hu Hb Hub Hvu Hvb Hgu Hgb Hlu Hju Hlb Hjb
           fuel Hfuel.
    destruct fuel as [|[|fuel]]; [lia | lia |].
    unfold parse_all_pages.
    set (st0 := set_start_time (clock (ticks st)) (tick st)).
    set (ss := detect_site_type u) in *.
    destruct (page_success ss delay u page_u 0 st0 Hgu)
      as (st1 & Hp1 & Hv1 & Hf1 & Hr1 & Hn1 & Hx1).
    rewrite Hlu, Hju in Hp1.
    assert (Hgb' : http_get b (length (requests st1)) = inr page_b).
    { rewrite Hr1, length_app. exact Hgb. }
    destruct (page_success ss delay b page_b 1 st1 Hgb')
      as (st2 & Hp2 & Hv2 & Hf2 & Hr2 & Hn2 & Hx2).
    rewrite Hlb, Hjb in Hp2.
    exists st2. split.
    + rewrite walk_unfold.
      replace (continues u st0) with true
        by (symmetry; apply continues_spec; split; assumption).
      rewrite Hp1, walk_unfold.
      replace (continues b st1) with true.
      * rewrite Hp2. apply walk_visited. rewrite Hv2, Hv1.
        apply elem_of_union. right. apply elem_of_union. left.
        apply elem_of_singleton. reflexivity.
      * symmetry. apply continues_spec. split; [exact Hb|]. rewrite Hv1.
        intros Hin. apply elem_of_union in Hin as [Hin | Hin]; [|exact (Hvb Hin)].
        apply elem_of_singleton in Hin. congruence.
    + rewrite Hf2, Hf1, Hr2, Hr1, Hv2, Hv1, Hn2, Hn1, Hx2, Hx1, <- !app_assoc.
      simpl. repeat split; lia.
Qed.

(** ** Deduplication *)

(** C3: against an empty index a record is accepted and its fingerprint
    registered; presenting a record with the same fingerprint right after
    is refused and changes nothing; a fingerprint that is in the index is
    refused whatever happened in between, since checks only add to the
    index; records that agree up to case and surrounding whitespace have
    the same fingerprint; and the records that one seed's walk appends
    have pairwise distinct fingerprints. *)
Theorem dedup_accepts_once (q q' : Quote.t) (st : state) :
  (quote_hashes st = ∅ ->
     _is_unique_quote q st = (true, add_hash (fingerprint q) st)) /\
  (fingerprint q' = fingerprint q ->
     _is_unique_quote q' (snd (_is_unique_quote q st))
       = (false, snd (_is_unique_quote q st))) /\
  (fingerprint q' = fingerprint q ->
     forall s, fingerprint q ∈ quote_hashes s -> _is_unique_quote q' s = (false, s)) /\
  (forall p s, quote_hashes s ⊆ quote_hashes (snd (_is_unique_quote p s))) /\
  (lower (strip (Quote.quote q')) = lower (strip (Quote.quote q)) ->
   lower (strip (Quote.author q')) = lower (strip (Quote.author q)) ->
     fingerprint q' = fingerprint q) /\
  (forall fuel url delay st',
     parse_all_pages cfg urljoin http_get clock fuel url delay (clear_seed st)
       = Some st' ->
     exists new,
       all_quotes st' = all_quotes st ++ new /\ NoDup (map fingerprint new)).
Proof.
  assert (Hreg : fingerprint q ∈ quote_hashes (snd (_is_unique_quote q st))).
  { destruct (decide (fingerprint q ∈ quote_hashes st)) as [Hin | Hout].
    - rewrite (proj1 (is_unique_quote_spec q st) Hin). exact Hin.
    - rewrite (proj2 (is_unique_quote_spec q st) Hout). simpl.
      apply elem_of_union. left. apply elem_of_singleton. reflexivity. }
  split; [|split; [|split; [|split; [|split]]]].
  - intros Hempty. apply is_unique_quote_spec. rewrite Hempty.
    apply not_elem_of_empty.
  - intros Hfp. apply is_unique_quote_spec. rewrite Hfp. exact Hreg.
  - intros Hfp s Hin. apply is_unique_quote_spec. rewrite Hfp. exact Hin.
  - intros p s. destruct (decide (fingerprint p ∈ quote_hashes s)) as [Hin | Hout].
    + rewrite (proj1 (is_unique_quote_spec p s) Hin). reflexivity.
    + rewrite (proj2 (is_unique_quote_spec p s) Hout). simpl.
      apply union_subseteq_r.
  - intros Ht Ha. unfold fingerprint, _generate_quote_hash. rewrite Ht, Ha.
    reflexivity.
  - intros fuel url delay st' Hw. unfold parse_all_pages in Hw.
    apply walk_accepted in Hw as (new & Hq & Hnd & _).
    exists new. split; [exact Hq | exact Hnd].
Qed.

(** ** Retry exhaustion *)

Lemma retry_from_exhausted {A : Type} (max_retries : nat) (delay : Z)
    (backoff : bool) (func : state -> (exception + A) * state) :
  forall left attempt last st,
    (attempt + left = max_retries)%nat -> (1 <= left)%nat ->
    (forall k, (k < left)%nat ->
       exists e, fst (func (nth_attempt delay backoff func attempt k st)) = inl e) ->
    retry_from max_retries delay backoff func left attempt last st
      = func (nth_attempt delay backoff func attempt (left - 1) st).
Proof.
  induction left as [|left IH]; intros attempt last st Hsum Hpos Hfail; [lia|].
  cbn [retry_from].
  destruct (Hfail 0%nat ltac:(lia)) as [e He]. cbn [nth_attempt] in He.
  destruct (func st) as [[e'|v] st1] eqn:Ef; simpl in He; [|discriminate].
  destruct (Nat.eqb_spec attempt (max_retries - 1)) as [Hlast | Hmore].
  - assert (left = 0)%nat as -> by lia. cbn [Nat.sub nth_attempt].
    symmetry. exact Ef.
  - rewrite IH.
    + replace (S left - 1)%nat with (S (left - 1)) by lia.
      cbn [nth_attempt]. rewrite Ef. reflexivity.
    + lia.
    + lia.
    + intros k Hk. specialize (Hfail (S k) ltac:(lia)).
      cbn [nth_attempt] in Hfail. rewrite Ef in Hfail. exact Hfail.
Qed.

(** C8: when the three requests of a page fetch all fail, [fetch_page]
    raises the error of the third, and the walk ends at that page with the
    failed-request counter one higher, no page counted and no URL marked
    visited, after three requests for one [fetch_page] call.  For any
    positive [max_retries], a call whose attempts all fail returns what its
    last attempt returned. *)
Theorem retry_exhaustion_counts_once (sels : Sel.t) (delay : Z) (u : str)
    (pc : nat) (st : state) (e1 e2 e3 : exception) :
  continues u st = true ->
  http_get u (length (requests st)) = inl e1 ->
  http_get u (length (requests st) + 1) = inl e2 ->
  http_get u (length (requests st) + 2) = inl e3 ->
  fst (fetch_page http_get u st) = inl e3 /\
  (forall fuel, exists st',
     walk cfg urljoin http_get clock (S fuel) sels delay u pc st = Some st' /\
     failed_requests st' = (failed_requests st + 1)%nat /\
     total_pages st' = total_pages st /\
     visited_urls st' = visited_urls st /\
     all_quotes st' = all_quotes st /\
     fetches st' = fetches st ++ [u] /\
     requests st' = requests st ++ [u; u; u]) /\
  (forall (A : Type) (n : nat) (d : Z) (backoff : bool)
          (func : state -> (exception + A) * state) (s : state),
     (forall k, (k <= n)%nat ->
        exists e, fst (func (nth_attempt d backoff func 0 k s)) = inl e) ->
     retry_on_failure (S n) d backoff func s
       = func (nth_attempt d backoff func 0 n s)).
Proof.
  intros Hc H1' H2' H3'. split; [|split].
  - rewrite (fetch_page_exhausted u st e1 e2 e3) by assumption. reflexivity.
  - intros fuel.
    destruct (page_failure sels delay u pc st e1 e2 e3 H1' H2' H3')
      as (st' & Hp & Hrest).
    exists st'. split; [|tauto].
    rewrite walk_unfold, Hc, Hp. reflexivity.
  - intros A n d backoff func s Hfail. unfold retry_on_failure.
    rewrite retry_from_exhausted.
    + replace (S n - 1)%nat with n by lia. reflexivity.
    + reflexivity.
    + lia.
    + intros k Hk. apply Hfail. lia.
Qed.

End WalkerFacts.

(** ** The symbol-ratio threshold

    For every length that a string can have, the double-precision test
    [special > length * 0.3] decides [10 * special > 3 * length]: the
    rounding of the product never crosses an integer. *)

Lemma mul_03_rounding (n : Z) :
  (2 ^ 53 <= n * 5404319552844595)%Z -> (n < 2 ^ 50)%Z ->
  exists half k : Z,
    (0 < half)%Z /\ (half < n)%Z /\ (n < 4 * half)%Z /\
    (mul_03 n = k * (2 * half))%Z /\
    (n * 5404319552844595 - half <= mul_03 n <= n * 5404319552844595 + half)%Z /\
    (forall s : Z, exists j : Z, (s * 2 ^ 54 = j * (2 * half))%Z).
Proof.
  intros Hbig Hn. unfold mul_03.
  set (X := (n * 5404319552844595)%Z) in *.
  destruct (Z.ltb_spec X (2 ^ 53)) as [Hlt | _]; [lia|].
  assert (HX : (0 < X)%Z) by lia.
  pose proof (Z.log2_spec X HX) as [Hlo Hhi].
  assert (HL : (53 <= Z.log2 X)%Z).
  { change 53%Z with (Z.log2 (2 ^ 53)). apply Z.log2_le_mono. exact Hbig. }
  set (sh := (Z.log2 X - 52)%Z) in *.
  assert (Hsh : (1 <= sh)%Z) by (unfold sh; lia).
  replace (Z.log2 X) with (52 + sh)%Z in Hlo by (unfold sh; lia).
  replace (Z.succ (Z.log2 X)) with (53 + sh)%Z in Hhi by (unfold sh; lia).
  rewrite Z.pow_add_r in Hlo, Hhi by lia.
  assert (Hsh' : (sh < 51)%Z).
  { apply (Z.pow_lt_mono_r_iff 2); [lia | lia |].
    change (2 ^ 51)%Z with 2251799813685248%Z.
    change (2 ^ 52)%Z with 4503599627370496%Z in Hlo.
    change (2 ^ 50)%Z with 1125899906842624%Z in Hn. unfold X in Hlo. nia. }
  assert (Hpow : (2 ^ sh = 2 * 2 ^ (sh - 1))%Z).
  { replace sh with (1 + (sh - 1))%Z at 1 by lia.
    rewrite Z.pow_add_r by lia. reflexivity. }
  assert (H54 : (2 ^ 54 = 2 ^ (54 - sh) * 2 ^ sh)%Z).
  { rewrite <- Z.pow_add_r by lia. f_equal. lia. }
  assert (Hhalf : (0 < 2 ^ (sh - 1))%Z) by (apply Z.pow_pos_nonneg; lia).
  set (half := (2 ^ (sh - 1))%Z) in *.
  rewrite Hpow in *.
  pose proof (Z.div_mod X (2 * half) ltac:(lia)) as Hdm.
  pose proof (Z.mod_pos_bound X (2 * half) ltac:(lia)) as Hr.
  set (q := (X / (2 * half))%Z) in *. set (r := (X mod (2 * half))%Z) in *.
  change (2 ^ 52)%Z with 4503599627370496%Z in Hlo.
  change (2 ^ 53)%Z with 9007199254740992%Z in Hhi.
  exists half.
  exists (if (half <? r)%Z || ((r =? half)%Z && Z.odd q) then (q + 1)%Z else q).
  split; [exact Hhalf|]. split; [unfold X in Hlo; lia|].
  split; [unfold X in Hhi; lia|]. split; [reflexivity|]. split.
  - destruct (Z.ltb_spec half r); simpl.
    + lia.
    + destruct (Z.eqb_spec r half); simpl; [destruct (Z.odd q)|]; lia.
  - intros s. exists (s * 2 ^ (54 - sh))%Z. rewrite H54. ring.
Qed.

Lemma exceeds_03_exact (special length : nat) :
  (Z.of_nat length < 2 ^ 50)%Z ->
  exceeds_03 special length = (3 * Z.of_nat length <? 10 * Z.of_nat special)%Z.
Proof.
  intros Hn. unfold exceeds_03.
  set (n := Z.of_nat length) in *. set (s := Z.of_nat special).
  assert (Hn0 : (0 <= n)%Z) by (unfold n; lia).
  assert (Hs0 : (0 <= s)%Z) by (unfold s; lia).
  change (2 ^ 50)%Z with 1125899906842624%Z in Hn.
  destruct (Z.lt_ge_cases (n * 5404319552844595) (2 ^ 53)) as [Hsmall | Hbig].
  - unfold mul_03.
    destruct (Z.ltb_spec (n * 5404319552844595) (2 ^ 53)) as [_ | Hc]; [|lia].
    change (2 ^ 53)%Z with 9007199254740992%Z in Hsmall.
    change (2 ^ 54)%Z with 18014398509481984%Z.
    destruct (Z.ltb_spec (n * 5404319552844595) (s * 18014398509481984));
      destruct (Z.ltb_spec (3 * n) (10 * s)); try reflexivity; lia.
  - destruct (mul_03_rounding n Hbig) as (half & k & Hh & Hhn & Hnh & Hk & Hnear & Hmul);
      [assumption|].
    destruct (Hmul s) as [j Hj].
    change (2 ^ 54)%Z with 18014398509481984%Z in *.
    destruct (Z.ltb_spec (mul_03 n) (s * 18014398509481984)) as [Hlt | Hge];
      destruct (Z.ltb_spec (3 * n) (10 * s)) as [Hlt' | Hge']; try reflexivity.
    + exfalso. rewrite Hk, Hj in Hlt.
      assert (Hkj : (k < j)%Z) by (apply (Z.mul_lt_mono_pos_r (2 * half)); lia).
      assert (Hstep : ((k + 1) * (2 * half) <= j * (2 * half))%Z)
        by (apply Z.mul_le_mono_nonneg_r; lia).
      lia.
    + exfalso. lia.
Qed.

(** Reference values of [n * 0.3] in double precision, scaled by [2^54]. *)
Example mul_03_vectors :
  map mul_03 [0; 1; 2; 3; 5; 7; 10; 11; 1000; 4097; 123456789; 1099511640121]%Z
  = [0; 5404319552844595; 10808639105689190; 16212958658533784;
     27021597764222976; 37830236869912168; 54043195528445952;
     59447515081290544; 5404319552844595200; 22141497208004304896;
     667199938724109458866176; 5942112255286149979479998464]%Z.
Proof. vm_compute. reflexivity. Qed.

(** ** Content validation *)

Lemma isdigit_spec `{Unicode} (text : str) :
  isdigit text = true <-> text <> [] /\ Forall (fun c => isdigit_ch c = true) text.
Proof.
  unfold isdigit. rewrite andb_true_iff, truthy_true, forallb_forall, Forall_forall.
  split; intros [Hne Hall]; (split; [exact Hne|]); intros c Hc; apply Hall;
    apply list_elem_of_In; exact Hc.
Qed.

Lemma special_chars_underscores `{Unicode} (text : str) :
  non_alnum_non_space text
  = (special_chars text
     + length (List.filter
                 (fun c => (c =? 95)%N && negb (isalnum c) && negb (isspace c)) text))%nat.
Proof.
  unfold non_alnum_non_space, special_chars, is_word.
  induction text as [|c text IH]; simpl; [reflexivity|].
  destruct (isalnum c), (isspace c), (c =? 95); simpl; lia.
Qed.

(** C5, as amended: a text shorter than [2^50] characters fails content
    validation exactly when it is non-empty and all of its characters are
    digits, or when more than three tenths of its characters are neither
    word characters (alphanumeric or underscore) nor whitespace.
    Underscores do not count as symbols, and the empty text passes. *)
Theorem validate_quote_content_spec `{Unicode} (text : str) :
  (Z.of_nat (length text) < 2 ^ 50)%Z ->
  (_validate_quote_content text = false <->
     isdigit text = true \/ (3 * length text < 10 * special_chars text)%nat) /\
  (isdigit text = true <->
     text <> [] /\ Forall (fun c => isdigit_ch c = true) text) /\
  non_alnum_non_space text
    = (special_chars text
       + length (List.filter
                   (fun c => (c =? 95)%N && negb (isalnum c) && negb (isspace c))
                   text))%nat.
Proof.
  intros Hlen. split; [|split; [apply isdigit_spec | apply special_chars_underscores]].
  unfold _validate_quote_content. rewrite exceeds_03_exact by exact Hlen.
  destruct (isdigit text); [split; auto|].
  destruct (Z.ltb_spec (3 * Z.of_nat (length text))
                       (10 * Z.of_nat (special_chars text))).
  - split; [intros _; right; lia | reflexivity].
  - split; [discriminate | intros [Hd | Hs]; [discriminate | lia]].
Qed.

Lemma validate_quote_content_spec_witness :
  _validate_quote_content (lit "?!#$ %&*()") = false.
Proof.
  apply (proj1 (validate_quote_content_spec (lit "?!#$ %&*()")
                  ltac:(vm_compute; reflexivity))).
  right. vm_compute. lia.
Defined.

(** C5, as stated, fails: in a text of ten underscores every character is
    non-alphanumeric and non-whitespace, far above three tenths of the
    length, and the text is not made of digits; it passes validation. *)
Lemma validate_quote_content_underscores :
  isdigit (lit "__________") = false /\
  (3 * length (lit "__________") < 10 * non_alnum_non_space (lit "__________"))%nat /\
  _validate_quote_content (lit "__________") = true.
Proof. vm_compute. repeat split; lia. Qed.

(** ** Fingerprints *)

Lemma latin1_case_table :
  forallb (fun c => (c =? 181) || (c =? 223) || case_stable_ch c)
          (map N.of_nat (seq 0 256)) = true.
Proof. vm_compute. reflexivity. Qed.

Lemma case_stable_ch_ok (c : N) :
  c < 256 -> c <> 181 -> c <> 223 -> case_stable_ch c = true.
Proof.
  intros Hc H181 H223.
  assert (Hin : In c (map N.of_nat (seq 0 256))).
  { apply in_map_iff. exists (N.to_nat c). split; [apply N2Nat.id|].
    apply in_seq. lia. }
  pose proof latin1_case_table as Ht. rewrite forallb_forall in Ht.
  specialize (Ht c Hin). rewrite !orb_true_iff, !N.eqb_eq in Ht.
  destruct Ht as [[He | He] | Hs]; [congruence | congruence | exact Hs].
Qed.

Lemma case_stable_facts (c : N) :
  c < 256 /\ c <> 181 /\ c <> 223 ->
  latin1_upper_ch c = [upper1 c] /\
  latin1_isspace (upper1 c) = latin1_isspace c /\
  latin1_lower_ch (upper1 c) = latin1_lower_ch c.
Proof.
  intros (Hc & H181 & H223).
  pose proof (case_stable_ch_ok c Hc H181 H223) as Hs. unfold case_stable_ch in Hs.
  apply andb_true_iff in Hs as [Hs Hl]. apply andb_true_iff in Hs as [Hu Hsp].
  apply bool_decide_eq_true in Hu, Hl. apply Bool.eqb_prop in Hsp. auto.
Qed.

Lemma upper_case_stable (s : str) : case_stable s -> upper s = map upper1 s.
Proof.
  induction 1 as [|c s Hc _ IH]; [reflexivity|].
  change (upper (c :: s)) with (latin1_upper_ch c ++ upper s).
  rewrite IH, (proj1 (case_stable_facts c Hc)). reflexivity.
Qed.

Lemma lower_upper_case_stable (s : str) :
  case_stable s -> lower (map upper1 s) = lower s.
Proof.
  induction 1 as [|c s Hc _ IH]; [reflexivity|].
  change (latin1_lower_ch (upper1 c) ++ lower (map upper1 s)
          = latin1_lower_ch c ++ lower s).
  rewrite IH. destruct (case_stable_facts c Hc) as (_ & _ & ->). reflexivity.
Qed.

Lemma lstrip_upper_case_stable (s : str) :
  case_stable s ->
  lstrip (map upper1 s) = map upper1 (lstrip s) /\ case_stable (lstrip s).
Proof.
  induction 1 as [|c s Hc Hs IH]; [split; [reflexivity | constructor]|].
  cbn [map lstrip]. change (isspace (upper1 c)) with (latin1_isspace (upper1 c)).
  change (isspace c) with (latin1_isspace c).
  destruct (case_stable_facts c Hc) as (_ & -> & _).
  destruct (latin1_isspace c); [exact IH|].
  split; [reflexivity | constructor; assumption].
Qed.

Lemma case_stable_rev (s : str) : case_stable s -> case_stable (rev s).
Proof. unfold case_stable. apply List.Forall_rev. Qed.

Lemma strip_upper_case_stable (s : str) :
  case_stable s ->
  strip (map upper1 s) = map upper1 (strip s) /\ case_stable (strip s).
Proof.
  intros Hs. unfold strip, rstrip.
  destruct (lstrip_upper_case_stable s Hs) as [-> Hl].
  rewrite <- map_rev.
  destruct (lstrip_upper_case_stable (rev (lstrip s)) (case_stable_rev _ Hl))
    as [-> Hr].
  rewrite map_rev. split; [reflexivity | apply case_stable_rev; exact Hr].
Qed.

Lemma normalized_upper_case_stable (s : str) :
  case_stable s -> lower (strip (upper s)) = lower (strip s).
Proof.
  intros Hs. rewrite upper_case_stable by exact Hs.
  destruct (strip_upper_case_stable s Hs) as [-> Hst].
  apply lower_upper_case_stable. exact Hst.
Qed.

(** C2, as amended: the fingerprint depends only on the lower-cased,
    trimmed text and the lower-cased, trimmed author; it does not change
    when whitespace is added around either argument; and for texts and
    authors in the Latin-1 block without the letters U+00B5 and U+00DF
    (all ASCII strings among them) it does not change under [upper]. *)
Theorem fingerprint_stable :
  (forall (U : Unicode) (t a t' a' : str),
     lower (strip t') = lower (strip t) -> lower (strip a') = lower (strip a) ->
     _generate_quote_hash t' a' = _generate_quote_hash t a) /\
  (forall (U : Unicode) (t a w1 w2 w3 w4 : str),
     forallb isspace (w1 ++ w2 ++ w3 ++ w4) = true ->
     _generate_quote_hash (w1 ++ t ++ w2) (w3 ++ a ++ w4)
       = _generate_quote_hash t a) /\
  (forall t a : str,
     case_stable t -> case_stable a ->
     _generate_quote_hash (upper t) (upper a) = _generate_quote_hash t a).
Proof.
  split; [|split].
  - intros U t a t' a' Ht Ha. unfold _generate_quote_hash. rewrite Ht, Ha.
    reflexivity.
  - intros U t a w1 w2 w3 w4 Hw. rewrite !forallb_app in Hw.
    apply andb_true_iff in Hw as [H1' Hw]. apply andb_true_iff in Hw as [H2' Hw].
    apply andb_true_iff in Hw as [H3' H4'].
    unfold _generate_quote_hash. rewrite !strip_padding by assumption. reflexivity.
  - intros t a Ht Ha. unfold _generate_quote_hash.
    rewrite !normalized_upper_case_stable by assumption. reflexivity.
Qed.

Lemma fingerprint_stable_witness :
  _generate_quote_hash (upper (lit "To be, or not to be")) (upper (lit "Shakespeare"))
  = _generate_quote_hash (lit "To be, or not to be") (lit "Shakespeare").
Proof.
  apply (proj2 (proj2 fingerprint_stable));
    apply Forall_forall; intros c Hc; apply list_elem_of_In in Hc;
    vm_compute in Hc; repeat (destruct Hc as [<- | Hc]; [lia|]); destruct Hc.
Defined.

(** C2, as stated, fails: the upper-case form of U+00DF is "SS", which
    lower-cases to "ss", so the text "ß" and its upper-case form have
    different fingerprints. *)
Lemma fingerprint_eszett :
  _generate_quote_hash (upper [223]) (upper (lit "x"))
  <> _generate_quote_hash [223] (lit "x").
Proof. vm_compute. discriminate. Qed.

(** ** Worked examples *)

(** The end-to-end scenario on the first page alone: three containers, the
    third a duplicate of the first up to case and padding; two records are
    accepted, one page is counted and no request fails. *)
Example first_page_scenario :
  let r := @parse_quotes latin1 cycle_site DEFAULT_CONFIG fixed_clock
             (lit "<one>") (selectors toscrape) fresh in
  map Quote.author (fst r) = [lit "Augustine"; lit "Chopin"] /\
  map Quote.tags_count (fst r) = [2; 1]%nat /\
  size (quote_hashes (snd r)) = 2%nat.
Proof. vm_compute. repeat split. Qed.

Example cycle_walk_runs :
  match @parse_all_pages latin1 cycle_site DEFAULT_CONFIG host_urljoin cycle_get
          fixed_clock 10 url_one 1 fresh with
  | Some st =>
      fetches st = [url_one; url_two] /\ requests st = [url_one; url_two] /\
      sleeps st = [1%Z] /\ total_pages st = 2%nat /\ total_quotes st = 3%nat /\
      failed_requests st = 0%nat /\
      map Quote.author (all_quotes st)
        = [lit "Augustine"; lit "Chopin"; lit "Unknown"]
  | None => False
  end.
Proof. vm_compute. repeat split. Qed.

Example down_walk_runs :
  match @parse_all_pages latin1 cycle_site DEFAULT_CONFIG host_urljoin down_get
          fixed_clock 1 url_one 1 fresh with
  | Some st =>
      fetches st = [url_one] /\ requests st = [url_one; url_one; url_one] /\
      sleeps st = [2; 4]%Z /\ total_pages st = 0%nat /\
      failed_requests st = 1%nat /\ size (visited_urls st) = 0%nat
  | None => False
  end.
Proof. vm_compute. repeat split. Qed.

(** ** The theorems at concrete inputs *)

Lemma pagination_stops_at_visited_witness :
  exists st',
    @parse_all_pages latin1 cycle_site DEFAULT_CONFIG host_urljoin cycle_get
      fixed_clock 2 url_one 1 fresh = Some st' /\
    fetches st' = fetches fresh ++ [url_one; url_two] /\
    requests st' = requests fresh ++ [url_one; url_two] /\
    visited_urls st' = {[url_two]} ∪ ({[url_one]} ∪ visited_urls fresh) /\
    total_pages st' = (total_pages fresh + 2)%nat /\
    failed_requests st' = failed_requests fresh.
Proof.
  apply (proj2 (proj2 (proj2
           (@pagination_stops_at_visited latin1 cycle_site DEFAULT_CONFIG
              host_urljoin cycle_get fixed_clock (selectors toscrape) 1
              url_one 0 fresh)))
         url_two (lit "<one>") (lit "<two>") (lit "/page/2/") (lit "/"));
    try (vm_compute; reflexivity); try (vm_compute; discriminate);
    try apply not_elem_of_empty; try lia.
Defined.

Lemma dedup_accepts_once_witness :
  @_is_unique_quote latin1
    {| Quote.quote := lit "  HELLO, wide world "; Quote.author := lit "BOB";
       Quote.tags := []; Quote.tags_count := 0; Quote.timestamp := [] |}
    (snd (@_is_unique_quote latin1
            {| Quote.quote := lit "Hello, wide world"; Quote.author := lit "Bob";
               Quote.tags := []; Quote.tags_count := 0; Quote.timestamp := [] |}
            fresh))
  = (false,
     snd (@_is_unique_quote latin1
            {| Quote.quote := lit "Hello, wide world"; Quote.author := lit "Bob";
               Quote.tags := []; Quote.tags_count := 0; Quote.timestamp := [] |}
            fresh)).
Proof.
  apply (proj1 (proj2
           (@dedup_accepts_once latin1 cycle_site DEFAULT_CONFIG host_urljoin
              cycle_get fixed_clock _ _ fresh))).
  vm_compute. reflexivity.
Defined.

Lemma create_quote_object_boundaries_witness :
  is_Some (@_create_quote_object latin1 DEFAULT_CONFIG [] (lit "abcdefghij")
             (lit "Anon") []) /\
  @_create_quote_object latin1 DEFAULT_CONFIG [] (lit "abcdefghi") (lit "Anon") []
    = None.
Proof.
  split.
  - destruct (proj1 (@create_quote_object_boundaries latin1 DEFAULT_CONFIG []
                       (lit "abcdefghij") (lit "Anon") [])
                ltac:(vm_compute; reflexivity) ltac:(vm_compute; reflexivity)
                ltac:(vm_compute; discriminate)) as (Hmin & _).
    apply Hmin. reflexivity.
  - destruct (proj1 (@create_quote_object_boundaries latin1 DEFAULT_CONFIG []
                       (lit "abcdefghi") (lit "Anon") [])
                ltac:(vm_compute; reflexivity) ltac:(vm_compute; reflexivity)
                ltac:(vm_compute; discriminate)) as (_ & Hbelow & _).
    apply Hbelow. reflexivity.
Defined.

Lemma parse_quotes_first_match_witness :
  @find_containers fallback_site (BeautifulSoup (lit "<fallback>")) [lit "a"; lit "b"]
  = [anonymous_el "first"; anonymous_el "second"].
Proof.
  apply (proj2 (proj2
           (@parse_quotes_first_match latin1 fallback_site DEFAULT_CONFIG
              fixed_clock (lit "<fallback>")
              {| Sel.quotes := Many [lit "a"; lit "b"]; Sel.text := One (lit "span.text");
                 Sel.author := Many []; Sel.tags := Many []; Sel.next_page := Many [] |}
              fresh))
         (lit "a") (lit "b")).
  - reflexivity.
  - vm_compute. reflexivity.
  - vm_compute. discriminate.
Defined.

Lemma find_tags_union_witness :
  @_find_tags latin1 cycle_site tagged_el (Many [lit ".tag"; lit ".tags"])
  = @tags_of latin1 cycle_site tagged_el (lit ".tag")
    ++ @tags_of latin1 cycle_site tagged_el (lit ".tags").
Proof.
  apply (proj1 (proj2
           (@find_tags_union latin1 cycle_site tagged_el
              (Many [lit ".tag"; lit ".tags"]))));
    vm_compute; discriminate.
Defined.

Example find_tags_keeps_repeats :
  @_find_tags latin1 cycle_site tagged_el (Many [lit ".tag"; lit ".tags"])
  = [lit "love"; lit "life"; lit "love"].
Proof. vm_compute. reflexivity. Qed.

Lemma retry_exhaustion_counts_once_witness :
  fst (fetch_page down_get url_one fresh) = inl (HTTPError 503) /\
  (forall fuel, exists st',
     @walk latin1 cycle_site DEFAULT_CONFIG host_urljoin down_get fixed_clock
       (S fuel) (selectors toscrape) 1 url_one 0 fresh = Some st' /\
     failed_requests st' = (failed_requests fresh + 1)%nat /\
     total_pages st' = total_pages fresh /\
     visited_urls st' = visited_urls fresh /\
     all_quotes st' = all_quotes fresh /\
     fetches st' = fetches fresh ++ [url_one] /\
     requests st' = requests fresh ++ [url_one; url_one; url_one]).
Proof.
  pose proof (@retry_exhaustion_counts_once latin1 cycle_site DEFAULT_CONFIG
                host_urljoin down_get fixed_clock (selectors toscrape) 1 url_one 0
                fresh Timeout RequestException (HTTPError 503)
                ltac:(vm_compute; reflexivity) eq_refl eq_refl eq_refl)
    as (Hlast & Hwalk & _).
  split; [exact Hlast | exact Hwalk].
Defined.

Lemma text_required_author_optional_witness :
  map Quote.author
    (fst (@parse_container latin1 cycle_site DEFAULT_CONFIG fixed_clock
            (selectors toscrape) ([], fresh)
            (anonymous_el "Nothing is certain but change.")))
  = [lit "Unknown"] /\
  @parse_container latin1 cycle_site DEFAULT_CONFIG fixed_clock
    (selectors toscrape) ([], fresh) empty_el = ([], fresh).
Proof.
  split.
  - rewrite (proj1 (proj2
              (@text_required_author_optional latin1 cycle_site DEFAULT_CONFIG
                 fixed_clock (selectors toscrape)
                 (anonymous_el "Nothing is certain but change.") [] fresh))
              (lit "Nothing is certain but change."))
      by (vm_compute; reflexivity).
    vm_compute. reflexivity.
  - apply (proj1
             (@text_required_author_optional latin1 cycle_site DEFAULT_CONFIG
                fixed_clock (selectors toscrape) empty_el [] fresh)).
    vm_compute. reflexivity.
Defined.

(** The upper boundary at the default configuration: a thousand
    characters are accepted, a thousand and one are not. *)
Example max_boundary_runs :
  is_Some (@_create_quote_object latin1 DEFAULT_CONFIG [] (repeat 97 1000) [] []) /\
  @_create_quote_object latin1 DEFAULT_CONFIG [] (repeat 97 1001) [] [] = None.
Proof. split; [eexists|]; vm_compute; reflexivity. Qed.

(** * Further properties of the engine *)

(** ** Field lookup and the next link *)

Section LookupFacts.
Context `{Unicode} `{Html}.

Lemma find_text_in_first (container : node) (sels : list str) :
  find_text_in container sels
  = head (List.filter truthy
            (map (first_text container) (List.filter truthy sels))).
Proof.
  induction sels as [|s sels IH]; cbn [find_text_in List.filter]; [reflexivity|].
  destruct (truthy s); cbn [negb map List.filter]; [|exact IH].
  pose proof (eq_refl : first_text container s
                        = match select_one container s with
                          | Some element => get_text_strip element
                          | None => []
                          end) as Hft.
  destruct (select_one container s) as [e|]; rewrite Hft; cbn [truthy];
    [|exact IH].
  destruct (truthy (get_text_strip e)); [reflexivity | exact IH].
Qed.

(** X1: [_find_element_text] looks at the first match of each non-empty
    selector candidate only and returns the first of these texts that is
    non-empty; what it returns is never empty. *)
Theorem find_element_text_first_nonempty (container : node) (sels : selector) :
  _find_element_text container sels
    = head (List.filter truthy
              (map (first_text container)
                   (List.filter truthy (_ensure_list sels)))) /\
  (forall t, _find_element_text container sels = Some t -> t <> []) /\
  (_find_element_text container sels = None <->
     forall s, s ∈ _ensure_list sels -> s <> [] -> first_text container s = []).
Proof.
  unfold _find_element_text. rewrite find_text_in_first.
  set (l := List.filter truthy (_ensure_list sels)).
  assert (Hl : forall s, In s l <-> In s (_ensure_list sels) /\ s <> [])
    by (intros s; unfold l; rewrite filter_In, truthy_true; reflexivity).
  split; [reflexivity|]. split.
  - intros t Ht.
    assert (Hin : In t (List.filter truthy (map (first_text container) l))).
    { destruct (List.filter truthy (map (first_text container) l)) as [|x xs];
        [discriminate|]. injection Ht as ->. left. reflexivity. }
    apply filter_In in Hin as [_ Htr]. apply truthy_true. exact Htr.
  - split.
    + intros Hnone s Hs Hne. rewrite list_elem_of_In in Hs.
      destruct (first_text container s) as [|c r] eqn:E; [reflexivity|].
      assert (Hin : In (c :: r) (List.filter truthy (map (first_text container) l))).
      { apply filter_In. split; [|reflexivity].
        apply in_map_iff. exists s. split; [exact E | apply Hl; auto]. }
      destruct (List.filter truthy (map (first_text container) l));
        [destruct Hin | discriminate].
    + intros Hall.
      destruct (List.filter truthy (map (first_text container) l)) as [|x xs] eqn:E;
        [reflexivity|].
      assert (Hin : In x (List.filter truthy (map (first_text container) l)))
        by (rewrite E; left; reflexivity).
      apply filter_In in Hin as [Hin Htr]. apply in_map_iff in Hin as (s & Hs & Hsl).
      apply Hl in Hsl as [Hsl Hne]. rewrite <- list_elem_of_In in Hsl.
      rewrite (Hall s Hsl Hne) in Hs. subst x. discriminate.
Qed.

Lemma next_link_in_first (soup : node) (sels : list str) :
  next_link_in soup sels
  = head (List.filter truthy (map (first_href soup) sels)).
Proof.
  induction sels as [|s sels IH]; cbn [next_link_in map List.filter]; [reflexivity|].
  pose proof (eq_refl : first_href soup s
                        = match select_one soup s with
                          | Some element => default [] (get element (lit "href"))
                          | None => []
                          end) as Hfh.
  destruct (select_one soup s) as [e|]; [|rewrite Hfh; exact IH].
  destruct (get e (lit "href")) as [h|]; cbn [default from_option id] in Hfh;
    rewrite Hfh; cbn [truthy]; [|exact IH].
  destruct (truthy h); [reflexivity | exact IH].
Qed.

(** X2: [has_next_page] looks at the first match of each next-page
    candidate only and returns the first non-empty [href] among them; a
    candidate whose first match has no [href] is passed over, whatever its
    later matches carry, and the link returned is never empty. *)
Theorem has_next_page_first_link (html : str) (sels : Sel.t) :
  has_next_page html sels
    = head (List.filter truthy
              (map (first_href (BeautifulSoup html))
                   (_ensure_list (Sel.next_page sels)))) /\
  (forall l, has_next_page html sels = Some l -> l <> []) /\
  (forall s rest first others,
     _ensure_list (Sel.next_page sels) = s :: rest ->
     select (BeautifulSoup html) s = first :: others ->
     get first (lit "href") = None ->
     has_next_page html sels = next_link_in (BeautifulSoup html) rest).
Proof.
  unfold has_next_page. split; [apply next_link_in_first|]. split.
  - intros l Hl. rewrite next_link_in_first in Hl.
    destruct (List.filter truthy _) as [|x xs] eqn:E; [discriminate|].
    injection Hl as ->.
    assert (Hin : In l (l :: xs)) by (left; reflexivity).
    rewrite <- E in Hin. apply filter_In in Hin as [_ Htr].
    apply truthy_true. exact Htr.
  - intros s rest first others Hs Hsel Hget. rewrite Hs. cbn [next_link_in].
    unfold select_one. rewrite Hsel. cbn [head]. rewrite Hget. reflexivity.
Qed.

End LookupFacts.

(** ** The retry schedule of a page fetch *)

Section WalkerMore.
Context `{Unicode} `{Html}.
Variable cfg : config.
Variable urljoin : str -> str -> str.
Variable http_get : str -> nat -> exception + str.
Variable clock : nat -> str.

Lemma fetch_page_unfold (url : str) (st : state) :
  fetch_page http_get url st =
  match http_get url (length (requests st)) with
  | inr html => (inr html, log_request url st)
  | inl _ =>
      match http_get url (length (requests st) + 1) with
      | inr html => (inr html, log_request url (sleep 2 (log_request url st)))
      | inl _ =>
          (http_get url (length (requests st) + 2),
           log_request url
             (sleep 4 (log_request url (sleep 2 (log_request url st)))))
      end
  end.
Proof.
  unfold fetch_page, retry_on_failure. cbn [retry_from].
  unfold fetch_page_once at 1.
  destruct (http_get url (length (requests st))) as [e1|html]; [|reflexivity].
  cbn [Nat.eqb Nat.sub]. unfold fetch_page_once at 1.
  cbn [requests sleep log_request]. rewrite length_app. cbn [length].
  destruct (http_get url (length (requests st) + 1)) as [e2|html]; [|reflexivity].
  cbn [Nat.eqb Nat.sub]. unfold fetch_page_once at 1.
  cbn [requests sleep log_request]. rewrite !length_app. cbn [length].
  replace (length (requests st) + 1 + 1)%nat with (length (requests st) + 2)%nat by lia.
  destruct (http_get url (length (requests st) + 2)) as [e3|html]; reflexivity.
Qed.

(** X3: a page fetch issues between one and three requests, all for its
    URL; it stops at the first request that succeeds; it sleeps 2 seconds
    after the first failure and 4 after the second, and never after its
    last request; what it returns or raises is the outcome of its last
    request. *)
Theorem fetch_page_schedule (url : str) (st : state) :
  exists n : nat,
    (1 <= n <= 3)%nat /\
    requests (snd (fetch_page http_get url st)) = requests st ++ repeat url n /\
    sleeps (snd (fetch_page http_get url st))
      = sleeps st ++ firstn (n - 1) [2; 4]%Z /\
    fst (fetch_page http_get url st)
      = http_get url (length (requests st) + (n - 1)) /\
    (forall i, (i < n - 1)%nat ->
       exists e, http_get url (length (requests st) + i) = inl e) /\
    ((n < 3)%nat -> exists html, fst (fetch_page http_get url st) = inr html).
Proof.
  rewrite fetch_page_unfold.
  destruct (http_get url (length (requests st))) as [e1|html] eqn:E1.
  - destruct (http_get url (length (requests st) + 1)) as [e2|html] eqn:E2.
    + exists 3%nat. cbn [fst snd requests sleeps log_request sleep Nat.sub firstn repeat].
      rewrite <- !app_assoc. cbn [app].
      repeat split; try lia.
      intros i Hi.
      destruct i as [|[|i]]; [rewrite Nat.add_0_r; eauto | eauto | lia].
    + exists 2%nat. cbn [fst snd requests sleeps log_request sleep Nat.sub firstn repeat].
      rewrite <- !app_assoc. cbn [app]. rewrite E2.
      repeat split; try lia; eauto.
      intros i Hi. assert (i = 0)%nat as -> by lia. rewrite Nat.add_0_r. eauto.
  - exists 1%nat. cbn [fst snd requests sleeps log_request sleep Nat.sub firstn repeat].
    rewrite app_nil_r, Nat.add_0_r, E1.
    repeat split; try lia; eauto.
Qed.

Lemma fetch_page_last_request (url : str) (st : state) :
  exists k, fst (fetch_page http_get url st) = http_get url k.
Proof.
  rewrite fetch_page_unfold.
  destruct (http_get url (length (requests st))) as [e1|html] eqn:E1;
    [|exists (length (requests st)); rewrite E1; reflexivity].
  destruct (http_get url (length (requests st) + 1)) as [e2|html] eqn:E2;
    [|exists (length (requests st) + 1)%nat; rewrite E2; reflexivity].
  exists (length (requests st) + 2)%nat. reflexivity.
Qed.

(** ** Accounting of a walk *)

Lemma page_outcome (sels : Sel.t) (delay : Z) (u : str) (pc : nat) (st : state) :
  (exists html quotes k,
     http_get u k = inr html /\
     fst (page cfg urljoin http_get clock sels delay u pc st)
       = match has_next_page html sels with
         | Some l => Next (urljoin u l) (S pc)
         | None => Stop
         end /\
     visited_urls (snd (page cfg urljoin http_get clock sels delay u pc st))
       = {[u]} ∪ visited_urls st /\
     total_pages (snd (page cfg urljoin http_get clock sels delay u pc st))
       = (total_pages st + 1)%nat /\
     failed_requests (snd (page cfg urljoin http_get clock sels delay u pc st))
       = failed_requests st /\
     all_quotes (snd (page cfg urljoin http_get clock sels delay u pc st))
       = all_quotes st ++ quotes /\
     total_quotes (snd (page cfg urljoin http_get clock sels delay u pc st))
       = (total_quotes st + length quotes)%nat) \/
  (fst (page cfg urljoin http_get clock sels delay u pc st) = Stop /\
   visited_urls (snd (page cfg urljoin http_get clock sels delay u pc st))
     = visited_urls st /\
   total_pages (snd (page cfg urljoin http_get clock sels delay u pc st))
     = total_pages st /\
   failed_requests (snd (page cfg urljoin http_get clock sels delay u pc st))
     = (failed_requests st + 1)%nat /\
   all_quotes (snd (page cfg urljoin http_get clock sels delay u pc st))
     = all_quotes st /\
   total_quotes (snd (page cfg urljoin http_get clock sels delay u pc st))
     = total_quotes st).
Proof.
  unfold page.
  pose proof (politeness_frame urljoin http_get clock delay pc st) as Hd. cbv zeta in Hd.
  set (st_d := if (0 <? delay)%Z && Nat.ltb 0 pc then sleep delay st else st) in *.
  destruct Hd as ((Hv & Hq & _ & Hp & Htq & Hfr & _) & _).
  pose proof (fetch_page_frame urljoin http_get u (log_fetch u st_d)) as Hfp.
  destruct (fetch_page_last_request u (log_fetch u st_d)) as (k0 & Hout).
  destruct (fetch_page http_get u (log_fetch u st_d)) as [[e|html] st1].
  - right. destruct Hfp as ((Hv1 & Hq1 & _ & Hp1 & Htq1 & Hfr1 & _) & _).
    simpl in *. rewrite Hv1, Hq1, Hp1, Htq1, Hfr1, Hv, Hq, Hp, Htq, Hfr. tauto.
  - left. destruct Hfp as ((Hv1 & Hq1 & _ & Hp1 & Htq1 & Hfr1 & _) & _).
    pose proof (parse_quotes_accepted cfg clock html sels (add_visited u st1)) as Hpq.
    destruct (parse_quotes cfg clock html sels (add_visited u st1)) as [quotes st2].
    destruct Hpq as (_ & (Hv2 & Hq2 & _ & Hp2 & Htq2 & Hfr2 & _) & _).
    simpl in *.
    exists html, quotes, k0.
    split; [symmetry; exact Hout|]. split.
    + destruct (has_next_page html sels) as [l|] eqn:El; [|reflexivity].
      unfold has_next_page in El. rewrite (next_link_in_truthy _ _ _ El). reflexivity.
    + destruct (has_next_page html sels) as [l|]; [destruct (truthy l)|]; simpl;
        rewrite Hv2, Hq2, Hp2, Htq2, Hfr2, Hv1, Hq1, Hp1, Htq1, Hfr1,
                Hv, Hq, Hp, Htq, Hfr; tauto.
Qed.



End WalkerMore.

(** ** Termination on a finite site *)

Section Termination.
Context `{Unicode} `{Html}.
Variable cfg : config.
Variable urljoin : str -> str -> str.
Variable http_get : str -> nat -> exception + str.
Variable clock : nat -> str.
Variable U : gset (list N).
Variable sels : Sel.t.
Hypothesis links_stay :
  forall v k html l,
    http_get v k = inr html -> has_next_page html sels = Some l -> urljoin v l ∈ U.

Lemma page_next_in_site (delay : Z) (u : str) (pc : nat) (st : state) u1 pc1 :
  fst (page cfg urljoin http_get clock sels delay u pc st) = Next u1 pc1 ->
  u1 ∈ U /\
  visited_urls (snd (page cfg urljoin http_get clock sels delay u pc st))
    = {[u]} ∪ visited_urls st.
Proof.
  intros Hn.
  destruct (page_outcome cfg urljoin http_get clock sels delay u pc st)
    as [(html & quotes & k & Hget & Hstep & Hv & _) | (Hstep & _)];
    [|congruence].
  rewrite Hstep in Hn. destruct (has_next_page html sels) as [l|] eqn:El;
    [|discriminate].
  injection Hn as <- _. split; [eapply links_stay; eassumption | exact Hv].
Qed.

Lemma walk_inside_site (delay : Z) :
  forall fuel u pc st,
    u ∈ U -> (size (U ∖ visited_urls st) <= fuel)%nat ->
    is_Some (walk cfg urljoin http_get clock fuel sels delay u pc st).
Proof.
  induction fuel as [|fuel IH]; intros u pc st Hu Hsize; rewrite walk_unfold;
    destruct (continues u st) eqn:Ec; try (eexists; reflexivity);
    apply (continues_spec urljoin http_get) in Ec as [_ Hnv].
  - exfalso. assert (Hz : size (U ∖ visited_urls st) = 0%nat) by lia.
    apply size_empty_iff in Hz.
    apply (not_elem_of_empty (C := gset (list N)) u). rewrite <- Hz.
    apply elem_of_difference. split; assumption.
  - pose proof (page_next_in_site delay u pc st) as Hnext.
    destruct (page cfg urljoin http_get clock sels delay u pc st)
      as [[u1 pc1|] st1]; [|eexists; reflexivity].
    destruct (Hnext u1 pc1 eq_refl) as [Hu1 Hv]. simpl in Hv.
    apply IH; [exact Hu1|]. rewrite Hv.
    assert (Hlt : (size (U ∖ ({[u]} ∪ visited_urls st))
                   < size (U ∖ visited_urls st))%nat).
    { apply subset_size. split.
      - intros x Hx. apply elem_of_difference in Hx as [Hx1 Hx2].
      apply elem_of_difference. split; [exact Hx1|].
      intros Hv'. apply Hx2. apply elem_of_union. right. exact Hv'.
      - intros Hsub.
        assert (Hin : u ∈ U ∖ visited_urls st)
          by (apply elem_of_difference; split; assumption).
        apply Hsub in Hin. apply elem_of_difference in Hin as [_ Hn].
        apply Hn. apply elem_of_union. left. apply elem_of_singleton.
        reflexivity. }
    lia.
Qed.

(** X5: when every next link that a page of the site can yield resolves
    into a finite set [U] of URLs, the walk returns from any start URL and
    any parser state, within one page more than the number of URLs of [U]
    not yet visited. *)
Theorem walk_terminates_on_finite_site (delay : Z) (fuel : nat) (u : str)
    (pc : nat) (st : state) :
  (size (U ∖ visited_urls st) + 1 <= fuel)%nat ->
  is_Some (walk cfg urljoin http_get clock fuel sels delay u pc st).
Proof.
  intros Hfuel. rewrite walk_unfold.
  destruct (continues u st); [|eexists; reflexivity].
  destruct fuel as [|fuel]; [lia|].
  pose proof (page_next_in_site delay u pc st) as Hnext.
  destruct (page cfg urljoin http_get clock sels delay u pc st)
    as [[u1 pc1|] st1]; [|eexists; reflexivity].
  destruct (Hnext u1 pc1 eq_refl) as [Hu1 Hv]. simpl in Hv.
  apply walk_inside_site; [exact Hu1|]. rewrite Hv.
  assert (Hle : (size (U ∖ ({[u]} ∪ visited_urls st))
                 <= size (U ∖ visited_urls st))%nat).
  { apply subseteq_size.
    intros x Hx. apply elem_of_difference in Hx as [Hx1 Hx2].
    apply elem_of_difference. split; [exact Hx1|].
    intros Hv'. apply Hx2. apply elem_of_union. right. exact Hv'. }
  lia.
Qed.

End Termination.

Lemma cycle_links_stay :
  forall v k html l,
    cycle_get v k = inr html ->
    @has_next_page cycle_site html (selectors toscrape) = Some l ->
    host_urljoin v l ∈ cycle_urls.
Proof.
  intros v k html l Hget Hnext. unfold cycle_get, str_eqb in Hget.
  destruct (decide (v = url_one)) as [-> | Hne1].
  - rewrite bool_decide_eq_true_2 in Hget by reflexivity.
    injection Hget as <-. vm_compute in Hnext. injection Hnext as <-.
    apply elem_of_union. right. apply elem_of_singleton. vm_compute. reflexivity.
  - rewrite bool_decide_eq_false_2 in Hget by exact Hne1.
    destruct (decide (v = url_two)) as [-> | Hne2].
    + rewrite bool_decide_eq_true_2 in Hget by reflexivity.
      injection Hget as <-. vm_compute in Hnext. injection Hnext as <-.
      apply elem_of_union. left. apply elem_of_singleton. vm_compute. reflexivity.
    + rewrite bool_decide_eq_false_2 in Hget by exact Hne2. discriminate.
Qed.

Lemma walk_terminates_on_finite_site_witness :
  is_Some (@walk latin1 cycle_site DEFAULT_CONFIG host_urljoin cycle_get
             fixed_clock 3 (selectors toscrape) 1 url_one 0 fresh).
Proof.
  apply (@walk_terminates_on_finite_site latin1 cycle_site DEFAULT_CONFIG
           host_urljoin cycle_get fixed_clock cycle_urls (selectors toscrape)
           cycle_links_stay).
  vm_compute. lia.
Defined.


(** ** Emitted records *)

Section ExtractorMore.
Context `{Unicode} `{Html}.
Variable cfg : config.
Variable clock : nat -> str.

Lemma find_tags_nonempty (container : node) (sels : selector) (t : str) :
  t ∈ _find_tags container sels -> t <> [].
Proof.
  unfold _find_tags. rewrite find_tags_in_spec, list_elem_of_In. cbn [app].
  rewrite in_flat_map. intros (s & _ & Ht). unfold tags_of in Ht.
  apply filter_In in Ht as [_ Ht]. apply truthy_true. exact Ht.
Qed.

Lemma found_text_stripped (container : node) (sels : selector) (t : str) :
  _find_element_text container sels = Some t -> strip t <> [].
Proof.
  intros Ht. apply find_text_in_some in Ht as (s & e & _ & _ & -> & Hne).
  apply get_text_strip_stripped. exact Hne.
Qed.

(** X6: as long as the placeholder "Unknown" does not consist of
    whitespace, every record that [parse_quotes] emits is well formed: its
    text lies within the configured length bounds and passes content
    validation, its author is not empty, none of its tags is empty,
    [tags_count] is the number of its tags, and its fingerprint was not in
    the index before the page and is in it afterwards. *)
Theorem emitted_records_well_formed (html : str) (sels : Sel.t) (st : state) :
  strip (lit "Unknown") <> [] ->
  forall q, q ∈ fst (parse_quotes cfg clock html sels st) ->
    (min_quote_length cfg <= Z.of_nat (length (Quote.quote q))
       <= max_quote_length cfg)%Z /\
    _validate_quote_content (Quote.quote q) = true /\
    Quote.author q <> [] /\
    Forall (fun t => t <> []) (Quote.tags q) /\
    Quote.tags_count q = length (Quote.tags q) /\
    (fingerprint q ∉ quote_hashes st) /\
    (fingerprint q ∈ quote_hashes (snd (parse_quotes cfg clock html sels st))).
Proof.
  intros Hunknown.
  assert (Hwf : forall q, q ∈ fst (parse_quotes cfg clock html sels st) ->
    (min_quote_length cfg <= Z.of_nat (length (Quote.quote q))
       <= max_quote_length cfg)%Z /\
    _validate_quote_content (Quote.quote q) = true /\
    Quote.author q <> [] /\
    Forall (fun t => t <> []) (Quote.tags q) /\
    Quote.tags_count q = length (Quote.tags q));
    [|intros q Hq;
      destruct (parse_quotes_accepted cfg clock html sels st) as ((_ & Hacc & _) & _);
      destruct (Hacc q Hq) as [Hin Hout]; specialize (Hwf q Hq); tauto].
  apply (parse_quotes_inv cfg clock
           (fun qs _ => forall q, q ∈ qs ->
              (min_quote_length cfg <= Z.of_nat (length (Quote.quote q))
                 <= max_quote_length cfg)%Z /\
              _validate_quote_content (Quote.quote q) = true /\
              Quote.author q <> [] /\
              Forall (fun t => t <> []) (Quote.tags q) /\
              Quote.tags_count q = length (Quote.tags q)) sels).
  - intros qs st' c Hqs q.
    destruct (parse_container_cases cfg clock sels qs st' c)
      as [-> | (t & q' & Ht & Hq' & [[_ ->] | [_ ->]])]; simpl; auto.
    rewrite elem_of_app, list_elem_of_singleton. intros [Hq | ->]; [auto|].
    apply create_quote_object_some in Hq' as (Hb & Hv & ->). simpl.
    split; [exact Hb|]. split; [exact Hv|]. split; [|split; [|reflexivity]].
    + destruct (_find_element_text c (Sel.author sels)) as [a|] eqn:Ea; simpl;
        [exact (found_text_stripped _ _ _ Ea) | exact Hunknown].
    + apply Forall_forall. intros tag Htag. eapply find_tags_nonempty. exact Htag.
  - intros q Hq. inversion Hq.
Qed.

End ExtractorMore.

Lemma emitted_records_well_formed_witness :
  Forall (fun q => Quote.author q <> [] /\ Quote.tags_count q = length (Quote.tags q))
    (fst (@parse_quotes latin1 cycle_site DEFAULT_CONFIG fixed_clock (lit "<one>")
            (selectors toscrape) fresh)).
Proof.
  apply Forall_forall. intros q Hq.
  destruct (@emitted_records_well_formed latin1 cycle_site DEFAULT_CONFIG
              fixed_clock (lit "<one>") (selectors toscrape) fresh
              ltac:(vm_compute; discriminate) q Hq)
    as (_ & _ & Ha & _ & Hc & _).
  split; assumption.
Defined.

(** * The configuration manager *)

Lemma clamp_spec (lo hi : Z) (v : pyval) :
  (lo <= hi)%Z ->
  (is_number v = false -> clamp lo hi v = inl TypeError) /\
  (is_number v = true -> exists r, clamp lo hi v = inr r /\ within lo hi r).
Proof.
  intros Hle. unfold clamp, py_min, py_max, within. split.
  - destruct v as [z|b|f|s| |l|items]; simpl; intros Hn; try discriminate; reflexivity.
  - intros Hn. destruct (num_gt v hi) as [e|b] eqn:Ehi.
    + destruct v as [z|b|[m e'| | |]|s| |l|items]; simpl in *; discriminate.
    + destruct b.
      * cbn [num_gt]. destruct (Z.ltb_spec lo hi) as [Hlt | Hge].
        -- eexists. split; [reflexivity|]. cbn [is_number num_gt].
           rewrite Z.ltb_irrefl. split; [reflexivity|]. split; [reflexivity|].
           right. f_equal. apply Z.ltb_lt. exact Hlt.
        -- assert (lo = hi) as -> by lia. eexists. split; [reflexivity|].
           cbn [is_number num_gt]. rewrite Z.ltb_irrefl. auto.
      * destruct (num_gt v lo) as [e|b] eqn:Elo.
        -- destruct v as [z|b|[m e'| | |]|s| |l|items]; simpl in *; discriminate.
        -- destruct b.
           ++ exists v. auto.
           ++ eexists. split; [reflexivity|]. cbn [is_number num_gt].
              split; [reflexivity|]. split; [|left; reflexivity].
              f_equal. apply Z.ltb_ge. exact Hle.
Qed.

Section ConfigFacts.
Variable py_str : pyval -> str.

Lemma validate_key_spec (key : str) (f : pyval -> exception + pyval)
    (config : pyval) (m m' : gmap (list N) pyval) :
  validate_key key f config m = inr m' ->
  m' = m \/
  exists x y, lookup_key key config = inr (Some x) /\ f x = inr y /\
              m' = <[key := y]> m.
Proof.
  unfold validate_key. destruct (lookup_key key config) as [e|[x|]];
    [discriminate | | intros [= <-]; left; reflexivity].
  destruct (f x) as [e|y] eqn:Ef; [discriminate|].
  intros [= <-]. right. exists x, y. auto.
Qed.

Lemma clamp_within (lo hi : Z) (x y : pyval) :
  (lo <= hi)%Z -> clamp lo hi x = inr y -> within lo hi y.
Proof.
  intros Hle Hc. destruct (clamp_spec lo hi x Hle) as [Hbad Hgood].
  destruct (is_number x).
  - destruct (Hgood eq_refl) as (r & Hr & Hw). congruence.
  - rewrite (Hbad eq_refl) in Hc. discriminate.
Qed.

Lemma literal_keys_differ :
  lit "request_timeout" <> lit "max_retries" /\
  lit "request_timeout" <> lit "user_agent" /\
  lit "max_retries" <> lit "user_agent".
Proof. vm_compute. repeat split; discriminate. Qed.

Lemma validate_config_keys (config : pyval)
    (validated : gmap (list N) pyval) :
  _validate_config py_str config = inr validated ->
  (forall r, validated !! lit "request_timeout" = Some r -> within 5 60 r) /\
  (forall r, validated !! lit "max_retries" = Some r -> within 1 10 r) /\
  (forall k, is_Some (validated !! k) -> validated_key k).
Proof.
  destruct literal_keys_differ as (H12 & H13 & H23).
  unfold _validate_config.
  destruct (validate_key _ (clamp 5 60) config ∅) as [e|m1] eqn:E1; [discriminate|].
  destruct (validate_key _ (clamp 1 10) config m1) as [e|m2] eqn:E2; [discriminate|].
  intros E3.
  assert (Hm1 : (forall r, m1 !! lit "request_timeout" = Some r -> within 5 60 r) /\
                (forall k, is_Some (m1 !! k) -> k = lit "request_timeout")).
  { apply validate_key_spec in E1 as [-> | (x & y & _ & Hc & ->)].
    - split; [intros r Hr | intros k [r Hr]]; rewrite lookup_empty in Hr;
        discriminate.
    - split.
      + intros r. rewrite lookup_insert_eq. intros [= <-].
        eapply clamp_within; [lia | exact Hc].
      + intros k [r Hr]. apply lookup_insert_Some in Hr as [[<- _] | [_ Hr]];
          [reflexivity|]. rewrite lookup_empty in Hr. discriminate. }
  destruct Hm1 as [Ht1 Hk1].
  assert (Hm2 : (forall r, m2 !! lit "request_timeout" = Some r -> within 5 60 r) /\
                (forall r, m2 !! lit "max_retries" = Some r -> within 1 10 r) /\
                (forall k, is_Some (m2 !! k) ->
                   k = lit "request_timeout" \/ k = lit "max_retries")).
  { apply validate_key_spec in E2 as [-> | (x & y & _ & Hc & ->)].
    - split; [exact Ht1|]. split; [|intros k Hk; left; auto].
      intros r Hr. assert (Hk := Hk1 _ (ex_intro _ r Hr)). congruence.
    - split; [|split].
      + intros r. rewrite lookup_insert_ne by congruence. apply Ht1.
      + intros r. rewrite lookup_insert_eq. intros [= <-].
        eapply clamp_within; [lia | exact Hc].
      + intros k [r Hr]. apply lookup_insert_Some in Hr as [[<- _] | [_ Hr]];
          [right; reflexivity | left; apply Hk1; eauto]. }
  destruct Hm2 as (Ht2 & Hr2 & Hk2).
  apply validate_key_spec in E3 as [-> | (x & y & _ & _ & ->)].
  - split; [exact Ht2|]. split; [exact Hr2|].
    intros k Hk. destruct (Hk2 k Hk) as [-> | ->]; unfold validated_key; auto.
  - split; [|split].
    + intros r. rewrite lookup_insert_ne by congruence. apply Ht2.
    + intros r. rewrite lookup_insert_ne by congruence. apply Hr2.
    + intros k [r Hr]. unfold validated_key.
      apply lookup_insert_Some in Hr as [[<- _] | [_ Hr]]; [auto|].
      destruct (Hk2 k (ex_intro _ r Hr)) as [-> | ->]; auto.
Qed.

(** X7: whatever the file holds, a validated [request_timeout] is a
    number between 5 and 60 and a validated [max_retries] a number between
    1 and 10 (not necessarily an integer); and the validated dict has no
    other keys than these two and [user_agent]. *)
Theorem validate_config_clamps (config : pyval)
    (validated : gmap (list N) pyval) :
  _validate_config py_str config = inr validated ->
  (forall r, validated !! lit "request_timeout" = Some r -> within 5 60 r) /\
  (forall r, validated !! lit "max_retries" = Some r -> within 1 10 r) /\
  (forall k, is_Some (validated !! k) -> validated_key k).
Proof.
  intros Hv. eapply validate_config_keys. exact Hv.
Qed.

(** X8: loading a file never changes a setting other than
    [request_timeout], [max_retries] and [user_agent]; so whatever the
    file says, [min_quote_length], [max_quote_length], [retry_delay],
    [respect_robots] and [default_delay] keep their defaults. *)
Theorem load_config_ignores_other_keys (parsed : exception + pyval)
    (settings : gmap (list N) pyval) :
  (forall k, ~ validated_key k ->
     snd (load_config py_str parsed settings) !! k = settings !! k) /\
  ConfigManager py_str (Some parsed) !! lit "min_quote_length" = Some (VInt 10) /\
  ConfigManager py_str (Some parsed) !! lit "max_quote_length" = Some (VInt 1000) /\
  ConfigManager py_str (Some parsed) !! lit "retry_delay" = Some (VInt 2) /\
  ConfigManager py_str (Some parsed) !! lit "respect_robots" = Some (VBool true) /\
  ConfigManager py_str (Some parsed) !! lit "default_delay" = Some (VInt 1).
Proof.
  assert (Hgen : forall s k, ~ validated_key k ->
            snd (load_config py_str parsed s) !! k = s !! k).
  { intros s k Hk. unfold load_config. destruct parsed as [e|config]; [reflexivity|].
    destruct (_validate_config py_str config) as [e|validated] eqn:Ev;
      [reflexivity|]. simpl.
    apply lookup_union_r.
    destruct (validated !! k) as [r|] eqn:Er; [|reflexivity].
    exfalso. apply Hk. eapply validate_config_keys; eauto. }
  split; [apply Hgen|]. unfold ConfigManager.
  repeat split; (rewrite Hgen; [vm_compute; reflexivity|]);
    unfold validated_key; vm_compute; intros [Hk | [Hk | Hk]]; discriminate.
Qed.

(** X9: a file is taken as a whole or not at all.  When [load_config]
    returns [False] the settings are what they were; that happens when the
    file cannot be read or parsed, and when one value is not a number
    where a number is clamped, even if the other keys are fine. *)
Theorem load_config_all_or_nothing (parsed : exception + pyval)
    (settings : gmap (list N) pyval) :
  (fst (load_config py_str parsed settings) = false ->
     snd (load_config py_str parsed settings) = settings) /\
  (forall e, parsed = inl e -> load_config py_str parsed settings = (false, settings)) /\
  (forall items x,
     parsed = inr (VDict items) ->
     (assoc (lit "request_timeout") items = Some x \/
      assoc (lit "max_retries") items = Some x) ->
     is_number x = false ->
     load_config py_str parsed settings = (false, settings)) /\
  (forall config validated,
     parsed = inr config -> _validate_config py_str config = inr validated ->
     load_config py_str parsed settings = (true, validated ∪ settings)).
Proof.
  split; [|split; [|split]].
  - unfold load_config. destruct parsed as [e|config]; [reflexivity|].
    destruct (_validate_config py_str config); [reflexivity | discriminate].
  - intros e ->. reflexivity.
  - intros items x -> Hx Hn. unfold load_config, _validate_config.
    destruct Hx as [Hx | Hx].
    + unfold validate_key at 1. cbn [lookup_key]. rewrite Hx.
      rewrite (proj1 (clamp_spec 5 60 x ltac:(lia)) Hn). reflexivity.
    + destruct (validate_key _ (clamp 5 60) (VDict items) ∅); [reflexivity|].
      unfold validate_key at 1. cbn [lookup_key]. rewrite Hx.
      rewrite (proj1 (clamp_spec 1 10 x ltac:(lia)) Hn). reflexivity.
  - intros config validated -> Hv. unfold load_config. rewrite Hv. reflexivity.
Qed.

End ConfigFacts.

Lemma validate_config_clamps_witness :
  within 5 60 (VInt 60) /\ within 1 10 (VFloat (Finite 5 (-1))).
Proof.
  assert (Hv : _validate_config str_of_text example_file
               = inr (<[lit "user_agent" := VStr (lit "quote-bot")]>
                        (<[lit "max_retries" := VFloat (Finite 5 (-1))]>
                           (<[lit "request_timeout" := VInt 60]>
                              (∅ : gmap (list N) pyval)))))
    by (vm_compute; reflexivity).
  destruct (validate_config_clamps str_of_text example_file _ Hv) as (Ht & Hr & _).
  split; [apply Ht | apply Hr]; vm_compute; reflexivity.
Defined.

Example example_file_loaded :
  ConfigManager str_of_text (Some (inr example_file)) !! lit "request_timeout"
    = Some (VInt 60) /\
  ConfigManager str_of_text (Some (inr example_file)) !! lit "min_quote_length"
    = Some (VInt 10) /\
  ConfigManager str_of_text (Some (inr example_file)) !! lit "respect_robots"
    = Some (VBool true).
Proof. vm_compute. repeat split. Qed.

(** * The robots policy check *)

(** X10: [check_robots_txt] answers [False] only when robots are to be
    respected, the policy file was fetched with a status other than 404
    and the policy forbids the URL; a URL that cannot be parsed, a request
    that fails and a missing policy all give [True].  It issues at most
    one request, to [/robots.txt] of the URL's origin, and none when
    robots are not respected. *)
Theorem check_robots_txt_permissive
    (urlparse : str -> exception + (str * str))
    (session_get : str -> exception + Response.t)
    (can_fetch : str -> str -> str -> bool) (cfg : config) (url : str) :
  (fst (check_robots_txt urlparse session_get can_fetch cfg url) = false <->
     respect_robots cfg = true /\
     exists scheme netloc response,
       urlparse url = inr (scheme, netloc) /\
       session_get (scheme ++ lit "://" ++ netloc ++ lit "/robots.txt")
         = inr response /\
       Response.status_code response <> 404%Z /\
       can_fetch (Response.text response) (user_agent cfg) url = false) /\
  (respect_robots cfg = false ->
     snd (check_robots_txt urlparse session_get can_fetch cfg url) = []) /\
  (forall requested,
     requested ∈ snd (check_robots_txt urlparse session_get can_fetch cfg url) ->
     snd (check_robots_txt urlparse session_get can_fetch cfg url) = [requested] /\
     exists scheme netloc,
       urlparse url = inr (scheme, netloc) /\
       requested = scheme ++ lit "://" ++ netloc ++ lit "/robots.txt").
Proof.
  unfold check_robots_txt. split; [|split].
  - destruct (respect_robots cfg); cbn [negb];
      [|split; [discriminate | intros [Hr _]; discriminate]].
    destruct (urlparse url) as [e|[scheme netloc]];
      [split; [discriminate | intros (_ & s & n & r & Hp & _); discriminate]|].
    destruct (session_get _) as [e|response] eqn:Eg.
    + split; [discriminate|].
      intros (_ & s & n & r & [= <- <-] & Hg & _). congruence.
    + destruct (Z.eqb_spec (Response.status_code response) 404) as [H404 | H404];
        cbn [fst].
      * split; [discriminate|].
        intros (_ & s & n & r & [= <- <-] & Hg & Hs & _).
        rewrite Eg in Hg. injection Hg as <-. contradiction.
      * split.
        -- intros Hc. split; [reflexivity|]. exists scheme, netloc, response. auto.
        -- intros (_ & s & n & r & [= <- <-] & Hg & _ & Hc).
           rewrite Eg in Hg. injection Hg as <-. exact Hc.
  - intros ->. reflexivity.
  - intros requested. destruct (respect_robots cfg); cbn [negb snd];
      [|intros Hin; inversion Hin].
    destruct (urlparse url) as [e|[scheme netloc]]; cbn [snd];
      [intros Hin; inversion Hin|].
    assert (Hone : requested ∈ [scheme ++ lit "://" ++ netloc ++ lit "/robots.txt"] ->
              [scheme ++ lit "://" ++ netloc ++ lit "/robots.txt"] = [requested] /\
              exists s n, @inr exception _ (scheme, netloc) = inr (s, n) /\
                          requested = s ++ lit "://" ++ n ++ lit "/robots.txt").
    { intros Hin. apply list_elem_of_singleton in Hin. subst requested.
      split; [reflexivity|]. exists scheme, netloc. auto. }
    destruct (session_get _) as [e|response]; [exact Hone|].
    destruct (Response.status_code response =? 404)%Z; exact Hone.
Qed.

Example robots_examples :
  check_robots_txt split_origin no_policy deny_all DEFAULT_CONFIG url_one
    = (true, [lit "http://quotes.toscrape.com/robots.txt"]) /\
  check_robots_txt split_origin closed_policy deny_all DEFAULT_CONFIG url_one
    = (false, [lit "http://quotes.toscrape.com/robots.txt"]) /\
  check_robots_txt split_origin (fun _ => inl Timeout) deny_all DEFAULT_CONFIG url_one
    = (true, [lit "http://quotes.toscrape.com/robots.txt"]).
Proof. vm_compute. repeat split. Qed.

(** * Export *)

Lemma after_dot_none (s : str) : after_dot s = None <-> 46 ∉ s.
Proof.
  induction s as [|c s IH]; cbn [after_dot].
  - split; [intros _ Hin; inversion Hin | reflexivity].
  - destruct (N.eqb_spec c 46) as [-> | Hne].
    + split; [discriminate | intros Hn; exfalso; apply Hn; left].
    + rewrite IH. rewrite not_elem_of_cons. split; [auto | tauto].
Qed.

Lemma after_dot_split (pre post : str) :
  46 ∉ pre -> after_dot (pre ++ 46 :: post) = Some post.
Proof.
  induction pre as [|c pre IH]; cbn [app after_dot]; intros Hn.
  - reflexivity.
  - apply not_elem_of_cons in Hn as [Hc Hn].
    destruct (N.eqb_spec c 46); [congruence | auto].
Qed.

(** X11: the name that [save_data] derives.  A file name without a dot is
    kept whole; otherwise everything from its last dot on is dropped,
    whether or not that dot begins an extension (so ["./quotes"] leaves the
    empty name). *)
Theorem base_name_last_dot (filename : str) :
  (46 ∉ filename -> base_name filename = filename) /\
  (forall stem ext,
     filename = stem ++ [46] ++ ext -> 46 ∉ ext -> base_name filename = stem) /\
  (46 ∈ filename ->
     exists ext, filename = base_name filename ++ [46] ++ ext /\ 46 ∉ ext).
Proof.
  unfold base_name. split; [|split].
  - intros Hn. assert (Hr : 46 ∉ rev filename).
    { intros Hin. apply Hn. rewrite list_elem_of_In in *. apply in_rev. exact Hin. }
    apply after_dot_none in Hr. rewrite Hr. reflexivity.
  - intros stem ext -> Hn. rewrite rev_app_distr. cbn [app rev].
    rewrite <- app_assoc. cbn [app]. rewrite after_dot_split.
    + apply rev_involutive.
    + intros Hin. apply Hn. rewrite list_elem_of_In in *. apply in_rev. exact Hin.
  - intros Hin. destruct (after_dot (rev filename)) as [r|] eqn:E.
    + assert (Hsplit : forall s r, after_dot s = Some r ->
                exists pre, s = pre ++ 46 :: r /\ 46 ∉ pre).
      { clear. induction s as [|c s IH]; cbn [after_dot]; intros r; [discriminate|].
        destruct (N.eqb_spec c 46) as [-> | Hne].
        - intros [= <-]. exists []. split; [reflexivity | intros Hin; inversion Hin].
        - intros Hr. destruct (IH r Hr) as (pre & -> & Hn).
          exists (c :: pre). split; [reflexivity|].
          apply not_elem_of_cons. auto. }
      destruct (Hsplit _ _ E) as (pre & Hrev & Hn).
      exists (rev pre). split.
      * rewrite <- (rev_involutive filename), Hrev, rev_app_distr. cbn [rev].
        rewrite <- app_assoc. reflexivity.
      * intros Hin'. apply Hn. rewrite list_elem_of_In in *. apply in_rev.
        exact Hin'.
    + apply after_dot_none in E. exfalso. apply E.
      rewrite list_elem_of_In in *. apply in_rev in Hin. exact Hin.
Qed.

Lemma base_name_last_dot_witness :
  base_name (lit "out/quotes.v2.JSON") = lit "out/quotes.v2".
Proof.
  apply (proj1 (proj2 (base_name_last_dot (lit "out/quotes.v2.JSON")))
           (lit "out/quotes.v2") (lit "JSON")).
  - reflexivity.
  - vm_compute. intros Hin.
    repeat (apply elem_of_cons in Hin as [Hin | Hin]; [discriminate|]).
    inversion Hin.
Defined.

Example base_name_of_relative_path : base_name (lit "./quotes") = [].
Proof. reflexivity. Qed.

Section ExportFacts.
Context `{Unicode}.
Variable now : str.
Variable elapsed : str -> str.
Variable writable : str -> bool.

(** X12: [save_data] returns [True] exactly when it writes a file, and it
    writes at most one.  It writes only when there are records, the
    lower-cased format is ["json"] or ["csv"] and the file can be opened;
    the file is named after the base name with the lower-cased format as
    extension and holds the JSON data or the CSV rows accordingly. *)
Theorem save_data_writes (filename format : str) (st : state) :
  (fst (save_data now elapsed writable filename format st) = true <->
     snd (save_data now elapsed writable filename format st) <> None) /\
  (forall path content,
     snd (save_data now elapsed writable filename format st) = Some (path, content) ->
     all_quotes st <> [] /\
     path = base_name filename ++ lit "." ++ lower format /\
     writable path = true /\
     ((lower format = lit "json" /\ content = json_data now elapsed st) \/
      (lower format = lit "csv" /\ content = csv_data st))) /\
  (all_quotes st = [] ->
     save_data now elapsed writable filename format st = (false, None)) /\
  (lower format <> lit "json" -> lower format <> lit "csv" ->
     save_data now elapsed writable filename format st = (false, None)).
Proof.
  unfold save_data, str_eqb.
  destruct (all_quotes st) as [|q qs] eqn:Eq.
  - cbn [fst snd]. split; [split; [discriminate | congruence]|].
    split; [discriminate|]. split; intros; reflexivity.
  - destruct (decide (lower format = lit "json")) as [Hj | Hj].
    + rewrite (bool_decide_eq_true_2 _ Hj).
      destruct (writable _) eqn:Ew; cbn [fst snd].
      * split; [split; [discriminate | reflexivity]|].
        split; [|split; [discriminate | congruence]].
        intros path content [= <- <-]. split; [discriminate|].
        split; [reflexivity|]. split; [exact Ew|]. left. auto.
      * split; [split; [discriminate | congruence]|].
        split; [discriminate|]. split; [discriminate | congruence].
    + rewrite (bool_decide_eq_false_2 _ Hj).
      destruct (decide (lower format = lit "csv")) as [Hc | Hc].
      * rewrite (bool_decide_eq_true_2 _ Hc).
        destruct (writable _) eqn:Ew; cbn [fst snd].
        -- split; [split; [discriminate | reflexivity]|].
           split; [|split; [discriminate | congruence]].
           intros path content [= <- <-]. split; [discriminate|].
           split; [reflexivity|]. split; [exact Ew|]. right. auto.
        -- split; [split; [discriminate | congruence]|].
           split; [discriminate|]. split; [discriminate | congruence].
      * rewrite (bool_decide_eq_false_2 _ Hc). cbn [fst snd].
        split; [split; [discriminate | congruence]|].
        split; [discriminate|]. split; [discriminate | reflexivity].
Qed.

Lemma csv_rows_lookup (quotes : list Quote.t) :
  forall idx i q,
    quotes !! i = Some q ->
    csv_rows idx quotes !! i
    = Some [CInt (idx + i); CStr (Quote.quote q); CStr (Quote.author q);
            CStr (join (lit ", ") (Quote.tags q)); CInt (Quote.tags_count q);
            CStr (Quote.timestamp q)].
Proof.
  induction quotes as [|q0 quotes IH]; intros idx i q Hq; [discriminate|].
  destruct i as [|i]; cbn [csv_rows] in *.
  - injection Hq as ->. rewrite Nat.add_0_r. reflexivity.
  - replace (idx + S i)%nat with (S idx + i)%nat by lia.
    exact (IH (S idx) i q Hq).
Qed.

Lemma csv_rows_length (quotes : list Quote.t) (idx : nat) :
  length (csv_rows idx quotes) = length quotes.
Proof.
  revert idx. induction quotes as [|q quotes IH]; intros idx; simpl;
    [reflexivity | f_equal; apply IH].
Qed.

End ExportFacts.

(** X13: the CSV export has one header row and one row per record, in
    order; the row of the record at position [i] (from 0) carries the id
    [i + 1], the record's fields and its tags joined by a comma and a
    space. *)
Theorem csv_rows_numbered (st : state) (rows : list (list cell)) :
  csv_data st = CsvFile rows ->
  length rows = S (length (all_quotes st)) /\
  forall i q,
    all_quotes st !! i = Some q ->
    rows !! S i
    = Some [CInt (S i); CStr (Quote.quote q); CStr (Quote.author q);
            CStr (join (lit ", ") (Quote.tags q)); CInt (Quote.tags_count q);
            CStr (Quote.timestamp q)].
Proof.
  unfold csv_data. intros [= <-]. split.
  - cbn [length]. rewrite csv_rows_length. reflexivity.
  - intros i q Hq. exact (csv_rows_lookup _ 1 i q Hq).
Qed.

Lemma csv_rows_numbered_witness :
  exists rows, csv_data cycle_result = CsvFile rows /\ length rows = 4%nat.
Proof.
  eexists. split; [reflexivity|].
  rewrite (proj1 (csv_rows_numbered cycle_result _ eq_refl)).
  vm_compute. reflexivity.
Defined.

(** X14: in the JSON metadata the number of distinct authors is at most
    the number of records, and at least one as soon as there is a record;
    the page count is the size of the visited set at the time of the
    export. *)
Theorem json_metadata_counts `{Unicode} (now : str) (elapsed : str -> str)
    (st : state) (metadata : Metadata.t) (quotes : list Quote.t) :
  json_data now elapsed st = JsonFile metadata quotes ->
  quotes = all_quotes st /\
  Metadata.total_quotes metadata = length quotes /\
  (Metadata.unique_authors metadata <= Metadata.total_quotes metadata)%nat /\
  (quotes <> [] -> (1 <= Metadata.unique_authors metadata)%nat) /\
  Metadata.total_pages metadata = size (visited_urls st).
Proof.
  unfold json_data. intros [= <- <-]. cbn.
  split; [reflexivity|]. split; [reflexivity|]. unfold unique_authors. split; [|split].
  - rewrite <- (length_map Quote.author (all_quotes st)).
    generalize (map Quote.author (all_quotes st)). intros l.
    induction l as [|a l IH]; cbn [list_to_set length].
    + rewrite size_empty. lia.
    + rewrite size_union_alt, size_singleton.
      assert (size (list_to_set l ∖ {[a]} : gset (list N))
              <= size (list_to_set l : gset (list N)))%nat
        by (apply subseteq_size, subseteq_difference_l; reflexivity).
      lia.
  - destruct (all_quotes st) as [|q qs]; [congruence|]. intros _.
    cbn [map list_to_set].
    assert (Hpos : size ({[Quote.author q]} ∪ list_to_set (map Quote.author qs)
                          : gset (list N)) <> 0%nat).
    { intros Hz. apply size_empty_iff in Hz.
      apply (not_elem_of_empty (C := gset (list N)) (Quote.author q)).
      rewrite <- Hz. apply elem_of_union. left. apply elem_of_singleton. reflexivity. }
    lia.
  - reflexivity.
Qed.

Lemma json_metadata_counts_witness :
  (size (list_to_set (map Quote.author (all_quotes cycle_result)) : gset (list N))
   <= length (all_quotes cycle_result))%nat.
Proof.
  destruct (@json_metadata_counts latin1 [] (fun s => s) cycle_result _ _ eq_refl)
    as (_ & _ & Hle & _).
  exact Hle.
Defined.

(** * The driver *)

Section DriverFacts.
Context `{Unicode} `{Html}.
Variable cfg : config.
Variable urljoin : str -> str -> str.
Variable http_get : str -> nat -> exception + str.
Variable clock : nat -> str.
Variable robots : nat -> str -> bool.






End DriverFacts.


(** Two seeds over the same three records: the first seed's three records
    are appended again after the second seed, and the deduplication index,
    emptied in between, lets all three in a second time. *)
Example two_seeds_repeat :
  length (snd two_seeds_result) = 9%nat /\
  length (all_quotes (fst two_seeds_result)) = 6%nat /\
  option_map (fun r => length (all_quotes (fst r)))
    (@main_loop latin1 cycle_site DEFAULT_CONFIG host_urljoin cycle_get
       fixed_clock (fun _ _ => true) 10 [url_one; url_two]) = Some 9%nat /\
  length (remove_dups (map Quote.quote (snd two_seeds_result))) = 3%nat /\
  total_pages (fst two_seeds_result) = 4%nat /\
  size (visited_urls (fst two_seeds_result)) = 2%nat.
Proof. vm_compute. repeat split. Qed.



(** One timeout, then success: two requests and one pause of two
    seconds. *)
Example flaky_fetch :
  fetch_page flaky_get url_one fresh
  = (inr (lit "<one>"), log_request url_one (sleep 2 (log_request url_one fresh))).
Proof. vm_compute. reflexivity. Qed.

Lemma find_element_text_first_nonempty_witness :
  @_find_element_text latin1 cycle_site empty_el (One (lit "span.text")) = None.
Proof.
  apply (proj2 (proj2 (@find_element_text_first_nonempty latin1 cycle_site
                         empty_el (One (lit "span.text"))))).
  intros s Hs _. apply list_elem_of_singleton in Hs. subst s.
  vm_compute. reflexivity.
Defined.

Lemma has_next_page_first_link_witness :
  @has_next_page broken_next_site (lit "<broken>") (selectors toscrape) = None.
Proof.
  apply (proj2 (proj2 (@has_next_page_first_link broken_next_site (lit "<broken>")
                         (selectors toscrape)))
           (lit "li.next a") [] (Toy [] None []) [next_el "/page/2/"]);
    vm_compute; reflexivity.
Defined.

Lemma load_config_ignores_other_keys_witness :
  ConfigManager str_of_text (Some (inr example_file)) !! lit "min_quote_length"
  = Some (VInt 10).
Proof.
  exact (proj1 (proj2 (load_config_ignores_other_keys str_of_text
                         (inr example_file) ∅))).
Defined.

Lemma load_config_all_or_nothing_witness :
  load_config str_of_text (inr bad_file) (settings_of DEFAULT_CONFIG)
  = (false, settings_of DEFAULT_CONFIG).
Proof.
  apply (proj1 (proj2 (proj2 (load_config_all_or_nothing str_of_text
                                (inr bad_file) (settings_of DEFAULT_CONFIG))))
           [(lit "request_timeout", VStr (lit "fast"));
            (lit "user_agent", VStr (lit "quote-bot"))]
           (VStr (lit "fast"))).
  - reflexivity.
  - left. vm_compute. reflexivity.
  - reflexivity.
Defined.

Lemma check_robots_txt_permissive_witness :
  fst (check_robots_txt split_origin closed_policy deny_all DEFAULT_CONFIG url_one)
  = false.
Proof.
  apply (proj1 (check_robots_txt_permissive split_origin closed_policy deny_all
                  DEFAULT_CONFIG url_one)).
  split; [reflexivity|].
  exists (lit "http"), (lit "quotes.toscrape.com"),
    {| Response.status_code := 200;
       Response.text := lit "User-agent: * Disallow: /" |}.
  repeat split. vm_compute. discriminate.
Defined.

Lemma save_data_writes_witness :
  lit "quotes.json" = base_name (lit "quotes.old") ++ lit "." ++ lower (lit "JSON").
Proof.
  apply (proj1 (proj2 (@save_data_writes latin1 [] (fun s => s) (fun _ => true)
                         (lit "quotes.old") (lit "JSON") cycle_result))
           (lit "quotes.json")
           (@json_data [] (fun s => s) cycle_result)).
  vm_compute. reflexivity.
Defined.
